(** * evcojs: the CQRS / event-sourcing dispatch engine

    A shallow embedding of the current version of the engine (the one
    whose [registerUpcaster] takes a context and whose [handleCommand]
    returns the state) and the properties of its registries and of its
    two pipelines, [createState] and [handleCommand].

    Conventions of the embedding.
    - The module-level variables ([source] and the five [Map]s) are the
      fields of one record, [Engine].  A registration function is a state
      transformer on it that either returns or throws.
    - A user-supplied closure (state loader, upcaster, state rebuilder,
      command handler, event handler) is a function on the application's
      own world [App]: it may change that world and it may throw.  It
      does not call back into the engine, so the registries are constant
      during one dispatch, and it does not mutate the events it is given.
      What an event handler starts asynchronously is not followed: the
      engine does not await it.
    - [await] is sequential composition; a rejected promise is a throw.
    - [randomUUID()] and [new Date().toISOString()] read oracles carried by
      the world.
    - Every call of a closure is recorded, together with the registry
      entry that was called and its arguments; the record is what the
      properties about "is invoked" and "is never invoked" talk about. *)

From stdpp Require Import base strings pretty gmap list.

(** ** Values *)

(** The TypeScript type [any]: event payloads, states, thrown values. *)
#[warnings="-register-all"]
Inductive any : Type :=
  | JNull
  | JUndefined
  | JBool (b : bool)
  | JNum (n : Z)
  | JStr (s : string)
  | JArr (items : list any)
  | JObj (fields : list (string * any)).

(** [new Error(message)] *)
Definition Error (message : string) : any :=
  JObj [("name", JStr "Error"); ("message", JStr message)].

(** [interface Command<C>] *)
Record Command : Type := mkCommand {
  cmd_type : string;
  cmd_subjects : list string;
  cmd_data : any;
}.

(** [interface CloudEvent<T>]; an optional attribute that is missing (or
    [null], which [??] treats alike) is [None].  [ev_extensions] holds the
    properties admitted by the index signature [[key: string]: unknown]. *)
Record CloudEvent : Type := mkCloudEvent {
  ev_id : option string;
  ev_source : option string;
  ev_type : string;
  ev_specversion : option string;
  ev_datacontenttype : option string;
  ev_dataschema : option string;
  ev_subject : string;
  ev_time : option string;
  ev_data : any;
  ev_extensions : gmap string any;
}.

(** What a call of a closure does: it returns a value or throws one. *)
Inductive Outcome (A : Type) : Type :=
  | Returned (a : A)
  | Threw (e : any).
Arguments Returned {A} a.
Arguments Threw {A} e.

Section Model.

Context {App : Type}.

(** A closure supplied by the application. *)
Definition Closure (A : Type) : Type := App → Outcome A * App.

(** [interface CommandHandler] *)
Record CommandHandler : Type := mkCommandHandler {
  ch_type : string;
  ch_context : string;
  ch_handle : any → any → Closure (list CloudEvent);
}.

(** [interface StateRebuilder] *)
Record StateRebuilder : Type := mkStateRebuilder {
  sr_type : string;
  sr_context : string;
  sr_stateRebuilder : any → any → Closure any;
}.

(** [interface EventHandler] *)
Record EventHandler : Type := mkEventHandler {
  eh_type : string;
  eh_eventHandler : CloudEvent → any → Closure unit;
}.

(** [interface UpCasthandler] *)
Record UpCasthandler : Type := mkUpCasthandler {
  uc_type : string;
  uc_context : string;
  uc_upcast : CloudEvent → Closure CloudEvent;
}.

(** [interface StateLoaderFunction] *)
Record StateLoaderFunction : Type := mkStateLoaderFunction {
  sl_load : list string → Closure (list CloudEvent);
  sl_context : string;
}.

(** The module-level state: [let source] and the five [const ... = new Map()]. *)
Record Engine : Type := mkEngine {
  source : string;
  commands : gmap string CommandHandler;
  stateRebuilder : gmap string StateRebuilder;
  eventHandler : gmap string (list EventHandler);
  upcastHandler : gmap string UpCasthandler;
  stateLoader : gmap string StateLoaderFunction;
}.

(** The state of a freshly loaded module. *)
Definition initial : Engine :=
  {| source := "CQRS_DEFAULTSOURCE";
     commands := ∅; stateRebuilder := ∅; eventHandler := ∅;
     upcastHandler := ∅; stateLoader := ∅ |}.

(** [createKey]: the template literal [`[${context}|${type}]`]. *)
Definition createKey (context type : string) : string :=
  "[" +:+ context +:+ "|" +:+ type +:+ "]".

(** ** Registration *)

Definition Registration : Type := Engine → Outcome unit * Engine.

Definition setSource (src : string) : Registration := λ E,
  (Returned tt,
   {| source := src; commands := commands E;
      stateRebuilder := stateRebuilder E; eventHandler := eventHandler E;
      upcastHandler := upcastHandler E; stateLoader := stateLoader E |}).

Definition registerUpcaster (type context : string)
    (func : CloudEvent → Closure CloudEvent) : Registration := λ E,
  let key := createKey context type in
  match upcastHandler E !! key with
  | Some _ => (Threw (Error ("upcaster for " +:+ key +:+ " already exists")), E)
  | None =>
    (Returned tt,
     {| source := source E; commands := commands E;
        stateRebuilder := stateRebuilder E; eventHandler := eventHandler E;
        upcastHandler :=
          <[key := mkUpCasthandler type context func]> (upcastHandler E);
        stateLoader := stateLoader E |})
  end.

(** [if (!has(type)) set(type, []); get(type)!.push({type, eventHandler})] *)
Definition registerEventhandler (type : string)
    (func : CloudEvent → any → Closure unit) : Registration := λ E,
  let handlers : list EventHandler := default [] (eventHandler E !! type) in
  (Returned tt,
   {| source := source E; commands := commands E;
      stateRebuilder := stateRebuilder E;
      eventHandler :=
        <[type := handlers ++ [mkEventHandler type func]]> (eventHandler E);
      upcastHandler := upcastHandler E; stateLoader := stateLoader E |}).

Definition registerStateLoadingFunction (context : string)
    (load : list string → Closure (list CloudEvent)) : Registration := λ E,
  (Returned tt,
   {| source := source E; commands := commands E;
      stateRebuilder := stateRebuilder E; eventHandler := eventHandler E;
      upcastHandler := upcastHandler E;
      stateLoader :=
        <[context := mkStateLoaderFunction load context]> (stateLoader E) |}).

Definition registerCommandHandler (type context : string)
    (commandHandler : any → any → Closure (list CloudEvent))
    : Registration := λ E,
  match commands E !! type with
  | Some _ =>
    (Threw (Error ("Command handler for " +:+ type +:+ " already exists")), E)
  | None =>
    (Returned tt,
     {| source := source E;
        commands := <[type := mkCommandHandler type context commandHandler]>
                      (commands E);
        stateRebuilder := stateRebuilder E; eventHandler := eventHandler E;
        upcastHandler := upcastHandler E; stateLoader := stateLoader E |})
  end.

Definition registerStateRebuilder (type context : string)
    (builderHandler : any → any → Closure any) : Registration := λ E,
  let key := createKey context type in
  match stateRebuilder E !! key with
  | Some _ =>
    (Threw (Error ("State rebuilder for " +:+ key +:+ " already exists")), E)
  | None =>
    (Returned tt,
     {| source := source E; commands := commands E;
        stateRebuilder :=
          <[key := mkStateRebuilder type context builderHandler]>
            (stateRebuilder E);
        eventHandler := eventHandler E;
        upcastHandler := upcastHandler E; stateLoader := stateLoader E |})
  end.

(** Startup code: registrations run one after the other; the first one
    that throws ends the sequence. *)
Fixpoint startup (rs : list Registration) (E : Engine) : Outcome unit * Engine :=
  match rs with
  | [] => (Returned tt, E)
  | r :: rs' =>
    match r E with
    | (Returned _, E') => startup rs' E'
    | (Threw e, E') => (Threw e, E')
    end
  end.

(** ** The world a dispatch runs in *)

Record World : Type := mkWorld {
  app : App;
  (** the values the coming calls of [randomUUID()] return *)
  entropy : nat → string;
  (** the values the coming reads of [new Date().toISOString()] return *)
  clock : nat → string;
}.

(** One call of a registered closure, with its arguments. *)
Inductive Call : Type :=
  | LoadCall (l : StateLoaderFunction) (subjects : list string)
  | UpcastCall (u : UpCasthandler) (event : CloudEvent)
  | RebuildCall (r : StateRebuilder) (data state : any)
  | HandleCall (h : CommandHandler) (data state : any)
  | EventHandlerCall (eh : EventHandler) (event : CloudEvent) (state : any).

(** A run of engine code: outcome, world afterwards, calls made. *)
Definition M (A : Type) : Type := World → Outcome A * World * list Call.

Definition ret {A} (a : A) : M A := λ w, (Returned a, w, []).

Definition bind {A B} (m : M A) (k : A → M B) : M B := λ w,
  match m w with
  | (Returned a, w1, calls1) =>
    match k a w1 with (o, w2, calls2) => (o, w2, calls1 ++ calls2) end
  | (Threw e, w1, calls1) => (Threw e, w1, calls1)
  end.

Notation "'do' x <- m ;; k" := (bind m (λ x, k))
  (at level 10, x name, m at level 99, k at level 200).

Definition set_app (a : App) (w : World) : World :=
  {| app := a; entropy := entropy w; clock := clock w |}.

(** Calling a closure: the call is recorded, the closure acts on [app]. *)
Definition invoke {A} (c : Call) (f : Closure A) : M A := λ w,
  match f (app w) with
  | (o, a') => (o, set_app a' w, [c])
  end.

(** [randomUUID()] *)
Definition randomUUID : M string := λ w,
  (Returned (entropy w 0),
   {| app := app w; entropy := λ n, entropy w (S n); clock := clock w |}, []).

(** [new Date().toISOString()] *)
Definition now : M string := λ w,
  (Returned (clock w 0),
   {| app := app w; entropy := entropy w; clock := λ n, clock w (S n) |}, []).

(** [xs.map(f)] *)
Fixpoint map_ {A B} (f : A → M B) (xs : list A) : M (list B) :=
  match xs with
  | [] => ret []
  | x :: xs' => do y <- f x ;; do ys <- map_ f xs' ;; ret (y :: ys)
  end.

(** [for (const x of xs) { state = f(x, state) }] *)
Fixpoint for_fold {A S} (f : A → S → M S) (xs : list A) (state : S) : M S :=
  match xs with
  | [] => ret state
  | x :: xs' => do state' <- f x state ;; for_fold f xs' state'
  end.

(** [for (const x of xs) { f(x) }] and [xs.forEach(f)] *)
Fixpoint for_each {A} (f : A → M unit) (xs : list A) : M unit :=
  match xs with
  | [] => ret tt
  | x :: xs' => do _ <- f x ;; for_each f xs'
  end.

(** ** The two pipelines *)

Variable E : Engine.

Definition maybeUpcast (event : CloudEvent) : M CloudEvent :=
  match upcastHandler E !! ev_type event with
  | Some upcaster => invoke (UpcastCall upcaster event) (uc_upcast upcaster event)
  | None => ret event
  end.

Definition executeEvent (context : string) (event : CloudEvent) (state : any)
    : M any :=
  match stateRebuilder E !! createKey context (ev_type event) with
  | Some rebuilder =>
    if decide (sr_context rebuilder = context)
    then invoke (RebuildCall rebuilder (ev_data event) state)
                (sr_stateRebuilder rebuilder (ev_data event) state)
    else ret state
  | None => ret state
  end.

Definition createState (context : string) (subjects : list string) : M any :=
  do events <- match stateLoader E !! context with
            | Some stateLoadingFunction =>
              invoke (LoadCall stateLoadingFunction subjects)
                     (sl_load stateLoadingFunction subjects)
            | None => ret []
            end ;;
  do events <- map_ maybeUpcast events ;;
  for_fold (executeEvent context) events JNull.

(** The arrow function given to [newEvents.map] in [handleCommand]:
    [{...event, source: event.source ?? source, id: event.id ?? randomUUID(),
      time: event.time ?? new Date().toISOString(), specversion: "1.0",
      data: event.data}]. *)
Definition materialize (event : CloudEvent) : M CloudEvent :=
  let src := default (source E) (ev_source event) in
  do id <- match ev_id event with Some i => ret i | None => randomUUID end ;;
  do time <- match ev_time event with Some t => ret t | None => now end ;;
  ret {| ev_id := Some id;
         ev_source := Some src;
         ev_type := ev_type event;
         ev_specversion := Some "1.0";
         ev_datacontenttype := ev_datacontenttype event;
         ev_dataschema := ev_dataschema event;
         ev_subject := ev_subject event;
         ev_time := Some time;
         ev_data := ev_data event;
         ev_extensions := ev_extensions event |}.

(** The wire form of [event] when a fresh identifier would be [uuid] and the
    current instant is [instant]. *)
Definition wire (uuid instant : string) (event : CloudEvent) : CloudEvent :=
  {| ev_id := Some (default uuid (ev_id event));
     ev_source := Some (default (source E) (ev_source event));
     ev_type := ev_type event;
     ev_specversion := Some "1.0";
     ev_datacontenttype := ev_datacontenttype event;
     ev_dataschema := ev_dataschema event;
     ev_subject := ev_subject event;
     ev_time := Some (default instant (ev_time event));
     ev_data := ev_data event;
     ev_extensions := ev_extensions event |}.

(** How many of [events] lack the optional attribute [field], that is, how
    many times its oracle is read while they are materialized. *)
Fixpoint draws {A} (field : CloudEvent → option A) (events : list CloudEvent)
    : nat :=
  match events with
  | [] => 0
  | event :: events' =>
    match field event with Some _ => 0 | None => 1 end + draws field events'
  end.

(** The body of the last loop of [handleCommand]. *)
Definition fanOut (state : any) (cloudEvent : CloudEvent) : M unit :=
  match eventHandler E !! ev_type cloudEvent with
  | Some handlers =>
    for_each (λ eh, invoke (EventHandlerCall eh cloudEvent state)
                           (eh_eventHandler eh cloudEvent state))
             handlers
  | None => ret tt
  end.

Definition handleCommand (command : Command) : M any :=
  match commands E !! cmd_type command with
  | Some commandHandler =>
    do state <- createState (ch_context commandHandler) (cmd_subjects command) ;;
    do newEvents <- invoke (HandleCall commandHandler (cmd_data command) state)
                        (ch_handle commandHandler (cmd_data command) state) ;;
    do state <- for_fold (executeEvent (ch_context commandHandler)) newEvents state ;;
    do cloudEvents <- map_ materialize newEvents ;;
    do _ <- for_each (fanOut state) cloudEvents ;;
    ret state
  | None => ret JNull
  end.

End Model.

Arguments CommandHandler : clear implicits.
Arguments StateRebuilder : clear implicits.
Arguments EventHandler : clear implicits.
Arguments UpCasthandler : clear implicits.
Arguments StateLoaderFunction : clear implicits.
Arguments Engine : clear implicits.
Arguments World : clear implicits.
Arguments Call : clear implicits.
Arguments Closure : clear implicits.
Arguments Registration : clear implicits.
Arguments M : clear implicits.

(** * Vocabulary of the properties *)

Section Observations.

Context {App : Type}.
Implicit Types (E : Engine App) (w : World App).

(** The three components of a run. *)
Definition outcome_of {A} (r : Outcome A * World App * list (Call App)) := r.1.1.
Definition world_of {A} (r : Outcome A * World App * list (Call App)) := r.1.2.
Definition calls_of {A} (r : Outcome A * World App * list (Call App)) := r.2.

(** Every call made by [m], from any world, satisfies [P]. *)
Definition emits {A} (P : Call App → Prop) (m : M App A) : Prop :=
  ∀ w, Forall P (calls_of (m w)).

(** [m] relates the world before to the world after by [R]. *)
Definition preserves {A} (R : relation (World App)) (m : M App A) : Prop :=
  ∀ w, R w (world_of (m w)).

(** The oracles are not read. *)
Definition same_oracles : relation (World App) :=
  λ w w', entropy w' = entropy w ∧ clock w' = clock w.

(** Kinds of calls. *)
Definition is_upcast (c : Call App) : Prop :=
  match c with UpcastCall _ _ => True | _ => False end.
Definition is_eventHandler (c : Call App) : Prop :=
  match c with EventHandlerCall _ _ _ => True | _ => False end.

(** A call that [executeEvent E context event state] can make. *)
Definition rebuild_of E (context : string) (event : CloudEvent) (state : any)
    (c : Call App) : Prop :=
  ∃ r, c = RebuildCall r (ev_data event) state ∧
       stateRebuilder E !! createKey context (ev_type event) = Some r ∧
       sr_context r = context.

(** A call that [maybeUpcast E event] can make. *)
Definition upcast_of E (event : CloudEvent) (c : Call App) : Prop :=
  ∃ u, c = UpcastCall u event ∧ upcastHandler E !! ev_type event = Some u.

(** The calls of a replay under [context]: the loader, upcasters, and
    rebuilders whose registered context is [context]. *)
Definition replay_call (context : string) (c : Call App) : Prop :=
  match c with
  | LoadCall _ _ | UpcastCall _ _ => True
  | RebuildCall r _ _ => sr_context r = context
  | HandleCall _ _ _ | EventHandlerCall _ _ _ => False
  end.

(** A call that is not of a rebuilder registered for another context. *)
Definition rebuilds_under (context : string) (c : Call App) : Prop :=
  match c with
  | RebuildCall r _ _ => sr_context r = context
  | _ => True
  end.

(** The events the state loader of [context] returns in world [w]. *)
Definition loaded E (context : string) (subjects : list string) w
    : list CloudEvent :=
  match stateLoader E !! context with
  | Some stateLoadingFunction =>
    match (sl_load stateLoadingFunction subjects (app w)).1 with
    | Returned events => events
    | Threw _ => []
    end
  | None => []
  end.

(** A call that does not apply an upcaster to anything outside [events]. *)
Definition upcasts_among (events : list CloudEvent) (c : Call App) : Prop :=
  match c with
  | UpcastCall _ event => event ∈ events
  | _ => True
  end.

(** A call [handleCommand] can make from the command handler's call on,
    when the handler [h] returns [newEvents]. *)
Definition live_call E (h : CommandHandler App) (command : Command)
    (newEvents : list CloudEvent) (c : Call App) : Prop :=
  match c with
  | LoadCall _ _ | UpcastCall _ _ => False
  | HandleCall h' data _ => h' = h ∧ data = cmd_data command
  | RebuildCall r data _ =>
    ∃ event, event ∈ newEvents ∧ data = ev_data event ∧
      stateRebuilder E !! createKey (ch_context h) (ev_type event) = Some r
  | EventHandlerCall eh cloudEvent _ =>
    ∃ event uuid instant,
      event ∈ newEvents ∧ cloudEvent = wire E uuid instant event
  end.

(** The fold of a replay under [context], said directly: from [state] and
    the application world [a], the events are taken in order; an event
    whose key has a rebuilder registered for [context] has that
    rebuilder called on its data and the current state, and the result
    becomes the current state; any other event is skipped. *)
Inductive folds E (context : string)
    : list CloudEvent → any → App → any → App → Prop :=
  | folds_done state a : folds E context [] state a state a
  | folds_skip event events state a state' a' :
      (∀ r, stateRebuilder E !! createKey context (ev_type event) = Some r →
            sr_context r ≠ context) →
      folds E context events state a state' a' →
      folds E context (event :: events) state a state' a'
  | folds_apply event events r state a state1 a1 state' a' :
      stateRebuilder E !! createKey context (ev_type event) = Some r →
      sr_context r = context →
      sr_stateRebuilder r (ev_data event) state a = (Returned state1, a1) →
      folds E context events state1 a1 state' a' →
      folds E context (event :: events) state a state' a'.

(** The calls of the registration API. *)
Inductive api_call : Registration App → Prop :=
  | api_setSource src : api_call (setSource src)
  | api_registerUpcaster type context func :
      api_call (registerUpcaster type context func)
  | api_registerEventhandler type func :
      api_call (registerEventhandler type func)
  | api_registerStateLoadingFunction context load :
      api_call (registerStateLoadingFunction context load)
  | api_registerCommandHandler type context commandHandler :
      api_call (registerCommandHandler type context commandHandler)
  | api_registerStateRebuilder type context builderHandler :
      api_call (registerStateRebuilder type context builderHandler).

(** The engines that calls of the API build from a freshly loaded module. *)
Inductive reachable : Engine App → Prop :=
  | reachable_initial : reachable initial
  | reachable_call E r : reachable E → api_call r → reachable (r E).2.

(** The handlers [fanOut] calls for one event: the list stored under its type. *)
Definition handlers_for E (cloudEvent : CloudEvent) : list (EventHandler App) :=
  default [] (eventHandler E !! ev_type cloudEvent).

(** One call of each of them, in the order of the list. *)
Definition fanOut_calls E (state : any) (cloudEvent : CloudEvent)
    : list (Call App) :=
  map (λ eh, EventHandlerCall eh cloudEvent state) (handlers_for E cloudEvent).

(** The calls [events.map(maybeUpcast)] makes when no upcaster throws: one
    for each event that has an upcaster under its type, in order. *)
Fixpoint upcast_calls E (events : list CloudEvent) : list (Call App) :=
  match events with
  | [] => []
  | event :: events' =>
    match upcastHandler E !! ev_type event with
    | Some u => UpcastCall u event :: upcast_calls E events'
    | None => upcast_calls E events'
    end
  end.

End Observations.

(** * Example applications

    Small applications in the style of the README's library domain, used
    to run the engine on concrete inputs.  Their world is an event store. *)

Definition Store : Type := list CloudEvent.

(** The minimal event a command handler returns: [{type, subject, data}]. *)
Definition minimal (type subject : string) (data : any) : CloudEvent :=
  {| ev_id := None; ev_source := None; ev_type := type; ev_specversion := None;
     ev_datacontenttype := None; ev_dataschema := None; ev_subject := subject;
     ev_time := None; ev_data := data; ev_extensions := ∅ |}.

(** State loader: the stored events of the given subjects. *)
Definition stateLoading (subjects : list string) : Closure Store (list CloudEvent) :=
  λ store, (Returned (filter (λ event, ev_subject event ∈ subjects) store), store).

(** State rebuilders: the state is the number of available copies. *)
Definition onRegistered (data state : any) : Closure Store any :=
  λ store, (Returned data, store).

Definition onBorrowed (data state : any) : Closure Store any :=
  λ store,
    (Returned (match state with JNum n => JNum (n - 1) | _ => state end), store).

(** Command handler: rejects when no copy is left. *)
Definition borrowBook (data state : any) : Closure Store (list CloudEvent) :=
  λ store,
    match state with
    | JNum n =>
      if decide (n ≤ 0)%Z then (Threw (Error "no copies left"), store)
      else (Returned [minimal "Borrowed" "/b/1" JNull], store)
    | _ => (Threw (Error "unknown book"), store)
    end.

(** Event handlers: one saves the event, one fails. *)
Definition saveEvent (event : CloudEvent) (state : any) : Closure Store unit :=
  λ store, (Returned tt, store ++ [event]).

Definition failingHandler (event : CloudEvent) (state : any) : Closure Store unit :=
  λ store, (Threw (Error "disk full"), store).

Definition library : Engine Store :=
  (startup [registerStateLoadingFunction "inventory" stateLoading;
            registerStateRebuilder "Registered" "inventory" onRegistered;
            registerStateRebuilder "Borrowed" "inventory" onBorrowed;
            registerCommandHandler "borrow" "inventory" borrowBook;
            registerEventhandler "Borrowed" saveEvent] initial).2.

(** The same domain, with a failing event handler registered before the
    saving one. *)
Definition library_failing : Engine Store :=
  (startup [registerStateLoadingFunction "inventory" stateLoading;
            registerStateRebuilder "Registered" "inventory" onRegistered;
            registerStateRebuilder "Borrowed" "inventory" onBorrowed;
            registerCommandHandler "borrow" "inventory" borrowBook;
            registerEventhandler "Borrowed" failingHandler;
            registerEventhandler "Borrowed" saveEvent] initial).2.

Definition borrow : Command := mkCommand "borrow" ["/b/1"] JNull.

Definition unknown : Command := mkCommand "return" ["/b/1"] JNull.

(** A world with [copies] registered copies of the book, and oracles that
    count. *)
Definition shelf (copies : Z) : World Store :=
  {| app := [minimal "Registered" "/b/1" (JNum copies)];
     entropy := λ n, "uuid-" +:+ pretty n;
     clock := λ n, "2025-01-01T00:00:0" +:+ pretty n +:+ "Z" |}.

Definition borrow_handler : CommandHandler Store :=
  mkCommandHandler "borrow" "inventory" borrowBook.

(** A second domain whose rebuilder has the same event type. *)
Definition two_domains : Engine Store :=
  (startup [registerStateRebuilder "Borrowed" "catalog" onRegistered] library).2.

(** A command handler that supplies an empty [id]. *)
Definition blank : CloudEvent :=
  {| ev_id := Some ""; ev_source := None; ev_type := "Borrowed";
     ev_specversion := None; ev_datacontenttype := None;
     ev_dataschema := None; ev_subject := "/b/1"; ev_time := None;
     ev_data := JNull; ev_extensions := ∅ |}.

Definition borrowBlank (data state : any) : Closure Store (list CloudEvent) :=
  λ store, (Returned [blank], store).

Definition library_blank : Engine Store :=
  (startup [registerCommandHandler "borrow" "inventory" borrowBlank;
            registerEventhandler "Borrowed" saveEvent] initial).2.

(** The README's upcaster: old events become [".v2"] events. *)
Definition upcastRegistered (event : CloudEvent) : Closure Store CloudEvent :=
  λ store,
    (Returned {| ev_id := None; ev_source := None; ev_type := "Registered.v2";
                 ev_specversion := None; ev_datacontenttype := None;
                 ev_dataschema := None; ev_subject := ev_subject event;
                 ev_time := None; ev_data := ev_data event;
                 ev_extensions := ∅ |}, store).

Definition library_v2 : Engine Store :=
  (startup [registerStateLoadingFunction "inventory" stateLoading;
            registerUpcaster "Registered" "inventory" upcastRegistered;
            registerStateRebuilder "Registered.v2" "inventory" onRegistered;
            registerStateRebuilder "Borrowed" "inventory" onBorrowed;
            registerCommandHandler "borrow" "inventory" borrowBook;
            registerEventhandler "Borrowed" saveEvent] initial).2.

(** A store holding an old event whose type is, letter for letter, the key
    under which the README's upcaster is registered. *)
Definition shelf_keyed : World Store :=
  {| app := [minimal "[inventory|Registered]" "/b/1" (JNum 2)];
     entropy := entropy (shelf 2); clock := clock (shelf 2) |}.

(** An application whose stored events have, letter for letter, the key
    of the registered upcaster as their type, so that a replay upcasts
    them, and whose command handler produces one more event of that
    same type.  The rebuilder and the event handler registered for that
    type itself see an event only if it was not upcast. *)
Definition restocked : CloudEvent :=
  minimal "[inventory|Registered]" "/b/1" (JNum 5).

Definition restock (data state : any) : Closure Store (list CloudEvent) :=
  λ store, (Returned [restocked], store).

Definition restock_handler : CommandHandler Store :=
  mkCommandHandler "restock" "inventory" restock.

Definition library_keyed : Engine Store :=
  (startup [registerStateLoadingFunction "inventory" stateLoading;
            registerUpcaster "Registered" "inventory" upcastRegistered;
            registerStateRebuilder "Registered.v2" "inventory" onRegistered;
            registerStateRebuilder "[inventory|Registered]" "inventory" onBorrowed;
            registerCommandHandler "restock" "inventory" restock;
            registerEventhandler "[inventory|Registered]" saveEvent] initial).2.

Definition restock_command : Command := mkCommand "restock" ["/b/1"] JNull.

(** A store holding an event for which nothing is registered. *)
Definition shelf_returned : World Store :=
  {| app := [minimal "Returned" "/b/1" JNull];
     entropy := entropy (shelf 2); clock := clock (shelf 2) |}.

(** A state loader whose promise is rejected. *)
Definition failingLoad (subjects : list string) : Closure Store (list CloudEvent) :=
  λ store, (Threw (Error "connection lost"), store).

Definition library_offline : Engine Store :=
  (startup [registerStateLoadingFunction "inventory" failingLoad;
            registerCommandHandler "borrow" "inventory" borrowBook] initial).2.

(** A command handler that accepts the command and produces no event. *)
Definition inspectBook (data state : any) : Closure Store (list CloudEvent) :=
  λ store, (Returned [], store).

Definition library_idle : Engine Store :=
  (startup [registerStateLoadingFunction "inventory" stateLoading;
            registerStateRebuilder "Registered" "inventory" onRegistered;
            registerCommandHandler "borrow" "inventory" inspectBook;
            registerEventhandler "Borrowed" saveEvent] initial).2.

(** A rebuilder that fails. *)
Definition brokenRebuilder (data state : any) : Closure Store any :=
  λ store, (Threw (Error "corrupt state"), store).

Definition library_corrupt : Engine Store :=
  (startup [registerStateLoadingFunction "inventory" stateLoading;
            registerStateRebuilder "Registered" "inventory" onRegistered;
            registerStateRebuilder "Borrowed" "inventory" brokenRebuilder;
            registerCommandHandler "borrow" "inventory" borrowBook;
            registerEventhandler "Borrowed" saveEvent] initial).2.

(** * Vocabulary of the further properties *)

Section Invariants.

Context {App : Type}.
Implicit Types (E : Engine App) (w : World App).

(** Every entry of the five registries is stored under the key made of
    its own fields. *)
Definition well_keyed E : Prop :=
  (∀ key h, commands E !! key = Some h → ch_type h = key) ∧
  (∀ key r, stateRebuilder E !! key = Some r →
     key = createKey (sr_context r) (sr_type r)) ∧
  (∀ key handlers eh, eventHandler E !! key = Some handlers →
     eh ∈ handlers → eh_type eh = key) ∧
  (∀ key u, upcastHandler E !! key = Some u →
     key = createKey (uc_context u) (uc_type u)) ∧
  (∀ key l, stateLoader E !! key = Some l → sl_context l = key).

(** A call [createState E context subjects] can make. *)
Definition createState_call E (context : string) (subjects : list string)
    (c : Call App) : Prop :=
  match c with
  | LoadCall l subjects' =>
    stateLoader E !! context = Some l ∧ subjects' = subjects
  | UpcastCall u event => upcastHandler E !! ev_type event = Some u
  | RebuildCall r _ _ => sr_context r = context
  | HandleCall _ _ _ | EventHandlerCall _ _ _ => False
  end.

(** A call that is not of an event handler outside the list stored under
    the type of the event it is given. *)
Definition routed E (c : Call App) : Prop :=
  match c with
  | EventHandlerCall eh cloudEvent _ =>
    ∃ handlers, eventHandler E !! ev_type cloudEvent = Some handlers ∧
                eh ∈ handlers
  | _ => True
  end.

(** The first half of [createState]: the loaded events, upcast. *)
Definition replayed E (context : string) (subjects : list string)
    : M App (list CloudEvent) :=
  bind (match stateLoader E !! context with
        | Some stateLoadingFunction =>
          invoke (LoadCall stateLoadingFunction subjects)
                 (sl_load stateLoadingFunction subjects)
        | None => ret []
        end)
       (λ events, map_ (maybeUpcast E) events).

End Invariants.

(** * The earlier version of the engine

    [src/index.ts]: upcasters are keyed by the event type alone and can
    be replaced, the wire event has a [timestamp] and only the six
    declared attributes, and [handleCommand] has no [return].  The
    conventions are those of the current version; calls are not
    recorded.  A [Date] is its time value, the milliseconds since the
    epoch. *)

Module Legacy.

Definition Date : Type := Z.

(** [interface CloudEvent<T>] *)
Record CloudEvent : Type := mkCloudEvent {
  ev_source : option string;
  ev_subject : string;
  ev_type : string;
  ev_id : option string;
  ev_timestamp : option Date;
  ev_data : any;
}.

Section Model.

Context {App : Type}.

Definition Closure (A : Type) : Type := App → Outcome A * App.

(** [interface CommandHandler] *)
Record CommandHandler : Type := mkCommandHandler {
  ch_type : string;
  ch_context : string;
  ch_handle : any → any → Closure (list CloudEvent);
}.

(** [interface StateRebuilder] *)
Record StateRebuilder : Type := mkStateRebuilder {
  sr_type : string;
  sr_context : string;
  sr_stateRebuilder : any → any → Closure any;
}.

(** [interface EventHandler] *)
Record EventHandler : Type := mkEventHandler {
  eh_type : string;
  eh_eventHandler : CloudEvent → any → Closure unit;
}.

(** [interface UpCasthandler] *)
Record UpCasthandler : Type := mkUpCasthandler {
  uc_type : string;
  uc_upcast : CloudEvent → Closure CloudEvent;
}.

(** [interface StateLoaderFunction] *)
Record StateLoaderFunction : Type := mkStateLoaderFunction {
  sl_load : list string → Closure (list CloudEvent);
  sl_context : string;
}.

Record Engine : Type := mkEngine {
  source : string;
  commands : gmap string CommandHandler;
  stateRebuilder : gmap string StateRebuilder;
  eventHandler : gmap string (list EventHandler);
  upcastHandler : gmap string UpCasthandler;
  stateLoader : gmap string StateLoaderFunction;
}.

Definition initial : Engine :=
  {| source := "CQRS_DEFAULTSOURCE";
     commands := ∅; stateRebuilder := ∅; eventHandler := ∅;
     upcastHandler := ∅; stateLoader := ∅ |}.

Definition Registration : Type := Engine → Outcome unit * Engine.

Definition setSource (src : string) : Registration := λ E,
  (Returned tt,
   {| source := src; commands := commands E;
      stateRebuilder := stateRebuilder E; eventHandler := eventHandler E;
      upcastHandler := upcastHandler E; stateLoader := stateLoader E |}).

(** [upcastHandler.set(type, { type, upcast: func })] *)
Definition registerUpcaster (type : string)
    (func : CloudEvent → Closure CloudEvent) : Registration := λ E,
  (Returned tt,
   {| source := source E; commands := commands E;
      stateRebuilder := stateRebuilder E; eventHandler := eventHandler E;
      upcastHandler := <[type := mkUpCasthandler type func]> (upcastHandler E);
      stateLoader := stateLoader E |}).

Definition registerEventhandler (type : string)
    (func : CloudEvent → any → Closure unit) : Registration := λ E,
  let handlers : list EventHandler := default [] (eventHandler E !! type) in
  (Returned tt,
   {| source := source E; commands := commands E;
      stateRebuilder := stateRebuilder E;
      eventHandler :=
        <[type := handlers ++ [mkEventHandler type func]]> (eventHandler E);
      upcastHandler := upcastHandler E; stateLoader := stateLoader E |}).

Definition registerStateLoadingFunction (context : string)
    (load : list string → Closure (list CloudEvent)) : Registration := λ E,
  (Returned tt,
   {| source := source E; commands := commands E;
      stateRebuilder := stateRebuilder E; eventHandler := eventHandler E;
      upcastHandler := upcastHandler E;
      stateLoader :=
        <[context := mkStateLoaderFunction load context]> (stateLoader E) |}).

Definition registerCommandHandler (type context : string)
    (commandHandler : any → any → Closure (list CloudEvent))
    : Registration := λ E,
  match commands E !! type with
  | Some _ =>
    (Threw (Error ("Command handler for " +:+ type +:+ " already exists")), E)
  | None =>
    (Returned tt,
     {| source := source E;
        commands := <[type := mkCommandHandler type context commandHandler]>
                      (commands E);
        stateRebuilder := stateRebuilder E; eventHandler := eventHandler E;
        upcastHandler := upcastHandler E; stateLoader := stateLoader E |})
  end.

Definition registerStateRebuilder (type context : string)
    (builderHandler : any → any → Closure any) : Registration := λ E,
  let key := createKey context type in
  match stateRebuilder E !! key with
  | Some _ =>
    (Threw (Error ("State rebuilder for " +:+ key +:+ " already exists")), E)
  | None =>
    (Returned tt,
     {| source := source E; commands := commands E;
        stateRebuilder :=
          <[key := mkStateRebuilder type context builderHandler]>
            (stateRebuilder E);
        eventHandler := eventHandler E;
        upcastHandler := upcastHandler E; stateLoader := stateLoader E |})
  end.

(** The world of a dispatch: the application's world and the oracles
    behind [randomUUID()] and [new Date()]. *)
Record World : Type := mkWorld {
  app : App;
  entropy : nat → string;
  clock : nat → Date;
}.

Definition M (A : Type) : Type := World → Outcome A * World.

Definition ret {A} (a : A) : M A := λ w, (Returned a, w).

Definition bind {A B} (m : M A) (k : A → M B) : M B := λ w,
  match m w with
  | (Returned a, w1) => k a w1
  | (Threw e, w1) => (Threw e, w1)
  end.

Notation "'do' x <- m ;; k" := (bind m (λ x, k))
  (at level 10, x name, m at level 99, k at level 200).

Definition set_app (a : App) (w : World) : World :=
  {| app := a; entropy := entropy w; clock := clock w |}.

Definition invoke {A} (f : Closure A) : M A := λ w,
  match f (app w) with
  | (o, a') => (o, set_app a' w)
  end.

(** [randomUUID()] *)
Definition randomUUID : M string := λ w,
  (Returned (entropy w 0),
   {| app := app w; entropy := λ n, entropy w (S n); clock := clock w |}).

(** [new Date()] *)
Definition newDate : M Date := λ w,
  (Returned (clock w 0),
   {| app := app w; entropy := entropy w; clock := λ n, clock w (S n) |}).

Fixpoint map_ {A B} (f : A → M B) (xs : list A) : M (list B) :=
  match xs with
  | [] => ret []
  | x :: xs' => do y <- f x ;; do ys <- map_ f xs' ;; ret (y :: ys)
  end.

Fixpoint for_fold {A S} (f : A → S → M S) (xs : list A) (state : S) : M S :=
  match xs with
  | [] => ret state
  | x :: xs' => do state' <- f x state ;; for_fold f xs' state'
  end.

Fixpoint for_each {A} (f : A → M unit) (xs : list A) : M unit :=
  match xs with
  | [] => ret tt
  | x :: xs' => do _ <- f x ;; for_each f xs'
  end.

Variable E : Engine.

Definition maybeUpcast (event : CloudEvent) : M CloudEvent :=
  match upcastHandler E !! ev_type event with
  | Some upcaster => invoke (uc_upcast upcaster event)
  | None => ret event
  end.

Definition executeEvent (context : string) (event : CloudEvent) (state : any)
    : M any :=
  match stateRebuilder E !! createKey context (ev_type event) with
  | Some rebuilder =>
    if decide (sr_context rebuilder = context)
    then invoke (sr_stateRebuilder rebuilder (ev_data event) state)
    else ret state
  | None => ret state
  end.

Definition createState (context : string) (subjects : list string) : M any :=
  do events <- match stateLoader E !! context with
               | Some stateLoadingFunction =>
                 invoke (sl_load stateLoadingFunction subjects)
               | None => ret []
               end ;;
  do events <- map_ maybeUpcast events ;;
  for_fold (executeEvent context) events JNull.

(** [{source: event.source ?? source, subject: event.subject,
      type: event.type, id: event.id ?? randomUUID(),
      timestamp: event.timestamp ?? new Date(), data: event.data}] *)
Definition materialize (event : CloudEvent) : M CloudEvent :=
  let src := default (source E) (ev_source event) in
  do id <- match ev_id event with Some i => ret i | None => randomUUID end ;;
  do timestamp <- match ev_timestamp event with
                  | Some t => ret t
                  | None => newDate
                  end ;;
  ret {| ev_source := Some src;
         ev_subject := ev_subject event;
         ev_type := ev_type event;
         ev_id := Some id;
         ev_timestamp := Some timestamp;
         ev_data := ev_data event |}.

Definition fanOut (state : any) (cloudEvent : CloudEvent) : M unit :=
  match eventHandler E !! ev_type cloudEvent with
  | Some handlers =>
    for_each (λ eh, invoke (eh_eventHandler eh cloudEvent state)) handlers
  | None => ret tt
  end.

(** The function has no [return]: its promise resolves to [undefined]. *)
Definition handleCommand (command : Command) : M any :=
  match commands E !! cmd_type command with
  | Some commandHandler =>
    do state <- createState (ch_context commandHandler) (cmd_subjects command) ;;
    do newEvents <- invoke (ch_handle commandHandler (cmd_data command) state) ;;
    do state <- for_fold (executeEvent (ch_context commandHandler)) newEvents state ;;
    do cloudEvents <- map_ materialize newEvents ;;
    do _ <- for_each (fanOut state) cloudEvents ;;
    ret JUndefined
  | None => ret JUndefined
  end.

End Model.

Arguments CommandHandler : clear implicits.
Arguments StateRebuilder : clear implicits.
Arguments EventHandler : clear implicits.
Arguments UpCasthandler : clear implicits.
Arguments StateLoaderFunction : clear implicits.
Arguments Engine : clear implicits.
Arguments World : clear implicits.
Arguments Closure : clear implicits.
Arguments Registration : clear implicits.
Arguments M : clear implicits.

End Legacy.

(** An application for the earlier version: one command handler, one
    rebuilder, and nothing to load. *)
Definition legacy_borrowed : Legacy.CloudEvent :=
  {| Legacy.ev_source := None; Legacy.ev_subject := "/b/1";
     Legacy.ev_type := "Borrowed"; Legacy.ev_id := None;
     Legacy.ev_timestamp := None; Legacy.ev_data := JNull |}.

Definition legacy_library : Legacy.Engine unit :=
  (Legacy.registerStateRebuilder "Borrowed" "inventory"
     (λ data state a, (Returned (JNum 1), a))
     (Legacy.registerCommandHandler "borrow" "inventory"
        (λ data state a, (Returned [legacy_borrowed], a))
        Legacy.initial).2).2.

Definition legacy_world : Legacy.World unit :=
  {| Legacy.app := tt; Legacy.entropy := λ n, "uuid-" +:+ pretty n;
     Legacy.clock := λ n, (1735689600000 + Z.of_nat n)%Z |}.

(** * Properties *)

Section Properties.

Context {App : Type}.
Implicit Types (E : Engine App) (w : World App) (calls : list (Call App)).

#[local] Notation "'do' x <- m ;; k" := (bind m (λ x, k))
  (at level 10, x name, m at level 99, k at level 200).

(** ** Keys *)

Lemma length_append (s1 s2 : string) :
  String.length (s1 +:+ s2) = String.length s1 + String.length s2.
Proof. induction s1 as [|a s1 IH]; simpl; [done | by rewrite IH]. Qed.

Lemma createKey_length (context type : string) :
  String.length (createKey context type)
  = 3 + String.length context + String.length type.
Proof.
  unfold createKey. rewrite !length_append. simpl. lia.
Qed.

(** A key is never the bare type it was built from. *)
Lemma createKey_not_type (context type : string) :
  createKey context type ≠ type.
Proof.
  intros Heq. apply (f_equal String.length) in Heq.
  rewrite createKey_length in Heq. lia.
Qed.

(** ** Runs *)

Lemma bind_run {A B} (m : M App A) (k : A → M App B) w :
  bind m k w =
    match m w with
    | (Returned a, w1, calls1) =>
      (outcome_of (k a w1), world_of (k a w1), calls1 ++ calls_of (k a w1))
    | (Threw e, w1, calls1) => (Threw e, w1, calls1)
    end.
Proof.
  unfold bind. destruct (m w) as [[[a|e] w1] calls1]; [|done].
  by destruct (k a w1) as [[o w2] calls2].
Qed.

Lemma bind_Returned {A B} (m : M App A) (k : A → M App B) w b w' calls :
  bind m k w = (Returned b, w', calls) ↔
  ∃ a w1 calls1 calls2,
    m w = (Returned a, w1, calls1) ∧
    k a w1 = (Returned b, w', calls2) ∧
    calls = calls1 ++ calls2.
Proof.
  unfold bind. split.
  - destruct (m w) as [[[a|e] w1] calls1]; [|done].
    destruct (k a w1) as [[o w2] calls2] eqn:Hk. intros [= -> -> <-].
    by exists a, w1, calls1, calls2.
  - intros (a & w1 & calls1 & calls2 & -> & -> & ->). done.
Qed.

Lemma bind_Threw {A B} (m : M App A) (k : A → M App B) w e w' calls :
  bind m k w = (Threw e, w', calls) ↔
  m w = (Threw e, w', calls) ∨
  ∃ a w1 calls1 calls2,
    m w = (Returned a, w1, calls1) ∧
    k a w1 = (Threw e, w', calls2) ∧
    calls = calls1 ++ calls2.
Proof.
  unfold bind. split.
  - destruct (m w) as [[[a|e0] w1] calls1]; [|intros [= -> -> ->]; by left].
    destruct (k a w1) as [[o w2] calls2] eqn:Hk. intros [= -> -> <-].
    right. by exists a, w1, calls1, calls2.
  - intros [-> | (a & w1 & calls1 & calls2 & -> & -> & ->)]; done.
Qed.

(** The calls of [m >>= k] are those of [m] followed by others. *)
Lemma bind_calls {A B} (m : M App A) (k : A → M App B) w :
  ∃ rest, calls_of (bind m k w) = calls_of (m w) ++ rest ∧
    match m w with
    | (Returned a, w1, _) => rest = calls_of (k a w1)
    | (Threw _, _, _) => rest = []
    end.
Proof.
  rewrite bind_run. destruct (m w) as [[[a|e] w1] calls1]; simpl.
  - by eexists.
  - exists []. by rewrite app_nil_r.
Qed.

(** ** What a computation may call, and what it leaves alone *)

#[local] Instance same_oracles_preorder : PreOrder (@same_oracles App).
Proof.
  split; [done|]. intros w1 w2 w3 [H1 H2] [H3 H4]. split; congruence.
Qed.



Section Combinators.
Context (P : Call App → Prop) (R : relation (World App)) `{!PreOrder R}.

Lemma ret_emits {A} (a : A) : emits P (ret a).
Proof. intros w. constructor. Qed.

Lemma ret_preserves {A} (a : A) : preserves R (ret a).
Proof. intros w. simpl. reflexivity. Qed.

Lemma invoke_emits {A} c (f : Closure App A) : P c → emits P (invoke c f).
Proof.
  intros Hc w. unfold invoke. destruct (f (app w)) as [o a']. simpl. by repeat constructor.
Qed.

Lemma bind_emits {A B} (m : M App A) (k : A → M App B) :
  emits P m → (∀ a, emits P (k a)) → emits P (bind m k).
Proof.
  intros Hm Hk w. rewrite bind_run. specialize (Hm w).
  destruct (m w) as [[[a|e] w1] calls1]; simpl in *; [|done].
  apply Forall_app. split; [done | apply Hk].
Qed.

Lemma bind_preserves {A B} (m : M App A) (k : A → M App B) :
  preserves R m → (∀ a, preserves R (k a)) → preserves R (bind m k).
Proof.
  intros Hm Hk w. rewrite bind_run. specialize (Hm w).
  destruct (m w) as [[[a|e] w1] calls1]; simpl in *; [|done].
  etrans; [done | apply Hk].
Qed.

Lemma map__emits {A B} (f : A → M App B) xs :
  (∀ x, x ∈ xs → emits P (f x)) → emits P (map_ f xs).
Proof.
  induction xs as [|x xs IH]; intros Hf; simpl; [apply ret_emits|].
  apply bind_emits; [apply Hf; left|]. intros y.
  apply bind_emits; [apply IH; intros; apply Hf; by right|].
  intros ys. apply ret_emits.
Qed.

Lemma map__preserves {A B} (f : A → M App B) xs :
  (∀ x, preserves R (f x)) → preserves R (map_ f xs).
Proof.
  intros Hf. induction xs as [|x xs IH]; simpl; [apply ret_preserves|].
  apply bind_preserves; [done|]. intros y.
  apply bind_preserves; [done|]. intros ys. apply ret_preserves.
Qed.

Lemma for_fold_emits {A S} (f : A → S → M App S) xs state :
  (∀ x s, x ∈ xs → emits P (f x s)) → emits P (for_fold f xs state).
Proof.
  revert state. induction xs as [|x xs IH]; intros state Hf; simpl;
    [apply ret_emits|].
  apply bind_emits; [apply Hf; left|]. intros s'.
  apply IH. intros; apply Hf; by right.
Qed.

Lemma for_fold_preserves {A S} (f : A → S → M App S) xs state :
  (∀ x s, preserves R (f x s)) → preserves R (for_fold f xs state).
Proof.
  intros Hf. revert state. induction xs as [|x xs IH]; intros state; simpl;
    [apply ret_preserves|].
  apply bind_preserves; [done|]. intros s'. apply IH.
Qed.

Lemma for_each_emits {A} (f : A → M App unit) xs :
  (∀ x, x ∈ xs → emits P (f x)) → emits P (for_each f xs).
Proof.
  induction xs as [|x xs IH]; intros Hf; simpl; [apply ret_emits|].
  apply bind_emits; [apply Hf; left|]. intros _.
  apply IH. intros; apply Hf; by right.
Qed.

Lemma for_each_preserves {A} (f : A → M App unit) xs :
  (∀ x, preserves R (f x)) → preserves R (for_each f xs).
Proof.
  intros Hf. induction xs as [|x xs IH]; simpl; [apply ret_preserves|].
  apply bind_preserves; [done|]. intros _. apply IH.
Qed.
End Combinators.

Lemma invoke_same_oracles {A} c (f : Closure App A) :
  preserves same_oracles (invoke c f).
Proof. intros w. unfold invoke. by destruct (f (app w)). Qed.

Lemma invoke_run {A} c (f : Closure App A) w :
  invoke c f w = ((f (app w)).1, set_app (f (app w)).2 w, [c]).
Proof. unfold invoke. by destruct (f (app w)). Qed.

(** ** Calls made by the pipelines *)

Lemma executeEvent_emits E context event state :
  emits (rebuild_of E context event state) (executeEvent E context event state).
Proof.
  unfold executeEvent.
  destruct (stateRebuilder E !! _) as [r|] eqn:Hr; [|apply ret_emits].
  case_decide; [|apply ret_emits].
  apply invoke_emits. by exists r.
Qed.

Lemma executeEvent_same_oracles E context event state :
  preserves same_oracles (executeEvent E context event state).
Proof.
  unfold executeEvent. destruct (stateRebuilder E !! _) as [r|];
    [case_decide|]; (apply invoke_same_oracles || apply ret_preserves; apply _).
Qed.

Lemma maybeUpcast_emits E event :
  emits (upcast_of E event) (maybeUpcast E event).
Proof.
  unfold maybeUpcast.
  destruct (upcastHandler E !! _) as [u|] eqn:Hu; [|apply ret_emits].
  apply invoke_emits. by exists u.
Qed.

Lemma maybeUpcast_same_oracles E event :
  preserves same_oracles (maybeUpcast E event).
Proof.
  unfold maybeUpcast. destruct (upcastHandler E !! _) as [u|];
    (apply invoke_same_oracles || apply ret_preserves; apply _).
Qed.

Lemma emits_impl {A} (P Q : Call App → Prop) (m : M App A) :
  (∀ c, P c → Q c) → emits P m → emits Q m.
Proof. intros HPQ Hm w. eapply Forall_impl; [apply Hm | done]. Qed.

Lemma rebuild_of_replay_call E context event state c :
  rebuild_of E context event state c → replay_call context c.
Proof. by intros (r & -> & _ & ?). Qed.

Lemma createState_emits E context subjects :
  emits (replay_call context) (createState E context subjects).
Proof.
  unfold createState. apply bind_emits.
  { destruct (stateLoader E !! context); [by apply invoke_emits | apply ret_emits]. }
  intros events. apply bind_emits.
  { apply map__emits. intros ev _.
    eapply emits_impl; [|apply maybeUpcast_emits]. by intros c (u & -> & _). }
  intros events'. apply for_fold_emits. intros ev s _.
  eapply emits_impl; [apply rebuild_of_replay_call | apply executeEvent_emits].
Qed.

Lemma createState_same_oracles E context subjects :
  preserves same_oracles (createState E context subjects).
Proof.
  unfold createState. apply bind_preserves; [apply _| |].
  { destruct (stateLoader E !! context);
      [apply invoke_same_oracles | apply ret_preserves; apply _]. }
  intros events. apply bind_preserves; [apply _| |].
  { apply map__preserves; [apply _|]. apply maybeUpcast_same_oracles. }
  intros events'. apply for_fold_preserves; [apply _|].
  intros; apply executeEvent_same_oracles.
Qed.

(** ** Fan-out *)

Lemma for_each_invoke_Returned (state : any) (cloudEvent : CloudEvent)
    (handlers : list (EventHandler App)) w w' calls :
  for_each (λ eh, invoke (EventHandlerCall eh cloudEvent state)
                         (eh_eventHandler eh cloudEvent state)) handlers w
    = (Returned tt, w', calls) →
  calls = map (λ eh, EventHandlerCall eh cloudEvent state) handlers.
Proof.
  revert w calls. induction handlers as [|eh handlers IH]; intros w calls; simpl.
  - by intros [= _ <-].
  - intros ([] & w1 & calls1 & calls2 & Hinv & Hrest & ->)%bind_Returned.
    rewrite invoke_run in Hinv. apply (f_equal snd) in Hinv. simpl in Hinv. subst calls1.
    simpl. f_equal. by eapply IH.
Qed.

Lemma fanOut_Returned E state cloudEvent w w' calls :
  fanOut E state cloudEvent w = (Returned tt, w', calls) →
  calls = fanOut_calls E state cloudEvent.
Proof.
  unfold fanOut, fanOut_calls, handlers_for.
  destruct (eventHandler E !! _) as [handlers|]; simpl.
  - apply for_each_invoke_Returned.
  - by intros [= _ <-].
Qed.

Lemma for_each_fanOut_Returned E state cloudEvents w w' calls :
  for_each (fanOut E state) cloudEvents w = (Returned tt, w', calls) →
  calls = concat (map (fanOut_calls E state) cloudEvents).
Proof.
  revert w calls. induction cloudEvents as [|ce ces IH]; intros w calls; simpl.
  - by intros [= _ <-].
  - intros ([] & w1 & calls1 & calls2 & Hce & Hrest & ->)%bind_Returned.
    f_equal; [by eapply fanOut_Returned | by eapply IH].
Qed.

Lemma fanOut_emits E state cloudEvent :
  emits is_eventHandler (fanOut E state cloudEvent).
Proof.
  unfold fanOut. destruct (eventHandler E !! _) as [handlers|]; [|apply ret_emits].
  apply for_each_emits. intros eh _. by apply invoke_emits.
Qed.

(** ** Materialization *)

Lemma materialize_run E event w :
  materialize E event w =
    (Returned (wire E (entropy w 0) (clock w 0) event),
     {| app := app w;
        entropy := match ev_id event with
                   | Some _ => entropy w | None => λ n, entropy w (S n) end;
        clock := match ev_time event with
                 | Some _ => clock w | None => λ n, clock w (S n) end |},
     []).
Proof.
  unfold materialize, wire, bind, randomUUID, now, ret.
  destruct w as [a en cl]. by destruct (ev_id event), (ev_time event).
Qed.

Lemma map_materialize_run E newEvents : ∀ w,
  ∃ cloudEvents w',
    map_ (materialize E) newEvents w = (Returned cloudEvents, w', []) ∧
    app w' = app w ∧
    (∀ k, entropy w' k = entropy w (draws ev_id newEvents + k)) ∧
    (∀ k, clock w' k = clock w (draws ev_time newEvents + k)) ∧
    length cloudEvents = length newEvents ∧
    ∀ i event, newEvents !! i = Some event →
      cloudEvents !! i =
        Some (wire E (entropy w (draws ev_id (take i newEvents)))
                     (clock w (draws ev_time (take i newEvents))) event).
Proof.
  induction newEvents as [|ev evs IH]; intros w; simpl.
  - exists [], w. by repeat split.
  - rewrite bind_run, materialize_run. simpl.
    match goal with |- context [bind (map_ _ evs) _ ?w1] =>
      destruct (IH w1) as (ces & w' & Hrun & Happ & Hen & Hcl & Hlen & Hces);
      rewrite (bind_run _ _ w1), Hrun end.
    simpl in *.
    eexists _, _. split; [done|]. split; [done|].
    split; [|split; [|split; [simpl; by rewrite Hlen|]]].
    + intros k. rewrite Hen. by destruct (ev_id ev).
    + intros k. rewrite Hcl. by destruct (ev_time ev).
    + intros [|i] event; simpl.
      * by intros [= ->].
      * intros Hi. rewrite (Hces _ _ Hi).
        by destruct (ev_id ev), (ev_time ev).
Qed.

(** ** The dispatcher, stage by stage *)

Lemma handleCommand_unknown E command :
  commands E !! cmd_type command = None → handleCommand E command = ret JNull.
Proof. unfold handleCommand. by intros ->. Qed.

Lemma handleCommand_known E command h :
  commands E !! cmd_type command = Some h →
  handleCommand E command =
    (do state <- createState E (ch_context h) (cmd_subjects command) ;;
     do newEvents <- invoke (HandleCall h (cmd_data command) state)
                            (ch_handle h (cmd_data command) state) ;;
     do state <- for_fold (executeEvent E (ch_context h)) newEvents state ;;
     do cloudEvents <- map_ (materialize E) newEvents ;;
     do _ <- for_each (fanOut E state) cloudEvents ;;
     ret state).
Proof. unfold handleCommand. by intros ->. Qed.

(** A dispatch completes exactly when each of its stages does, and then it
    returns the state left by the fold over the new events. *)
Lemma handleCommand_Returned E command h w s w' calls :
  commands E !! cmd_type command = Some h →
  handleCommand E command w = (Returned s, w', calls) ↔
  ∃ s0 w0 c0 newEvents a1 w2 c2 cloudEvents w3 c4,
    createState E (ch_context h) (cmd_subjects command) w = (Returned s0, w0, c0) ∧
    ch_handle h (cmd_data command) s0 (app w0) = (Returned newEvents, a1) ∧
    for_fold (executeEvent E (ch_context h)) newEvents s0 (set_app a1 w0)
      = (Returned s, w2, c2) ∧
    map_ (materialize E) newEvents w2 = (Returned cloudEvents, w3, []) ∧
    for_each (fanOut E s) cloudEvents w3 = (Returned tt, w', c4) ∧
    calls = c0 ++ HandleCall h (cmd_data command) s0 :: c2 ++ c4.
Proof.
  intros Hh. rewrite (handleCommand_known _ _ _ Hh). split.
  - intros (s0 & w0 & c0 & k1 & Hcs & H1 & ->)%bind_Returned.
    apply bind_Returned in H1 as (evs & w1 & c1 & k2 & Hinv & H2 & ->).
    apply bind_Returned in H2 as (s1 & w2 & c2 & k3 & Hfold & H3 & ->).
    apply bind_Returned in H3 as (ces & w3 & c3 & k4 & Hmat & H4 & ->).
    apply bind_Returned in H4 as ([] & w4 & c4 & k5 & Hfan & H5 & ->).
    injection H5 as -> -> <-.
    rewrite invoke_run in Hinv.
    destruct (ch_handle h (cmd_data command) s0 (app w0)) as [o a1] eqn:Hhandle.
    simpl in Hinv. injection Hinv as -> <- <-.
    destruct (map_materialize_run E evs w2) as (ces' & w3' & Hmat' & _).
    rewrite Hmat in Hmat'. injection Hmat' as <- <- ->.
    exists s0, w0, c0, evs, a1, w2, c2, ces, w3, c4.
    repeat split; try done. by rewrite app_nil_r.
  - intros (s0 & w0 & c0 & evs & a1 & w2 & c2 & ces & w3 & c4 &
            Hcs & Hhandle & Hfold & Hmat & Hfan & ->).
    apply bind_Returned. eexists _, _, _, _. split; [exact Hcs|]. split; [|done].
    apply bind_Returned. eexists _, _, _, _. split.
    { rewrite invoke_run, Hhandle. done. }
    split; [|done].
    apply bind_Returned. eexists _, _, _, _. split; [exact Hfold|]. split; [|done].
    apply bind_Returned. eexists _, _, _, _. split; [exact Hmat|]. split; [|done].
    apply bind_Returned. eexists _, _, _, _. split; [exact Hfan|]. split; [done|].
    by rewrite app_nil_r.
Qed.

(** ** Unknown commands *)

(** C3. A command whose type has no registered command handler makes
    [handleCommand] return [null] without throwing; the world is left as
    it was and no closure at all is called: no state loader, no
    rebuilder, no event handler. *)
Theorem handleCommand_unknown_command_is_noop E command w :
  commands E !! cmd_type command = None →
  handleCommand E command w = (Returned JNull, w, []).
Proof. intros Hnone. by rewrite handleCommand_unknown. Qed.

(** ** A command handler that throws *)

Lemma replay_call_not_eventHandler context (c : Call App) :
  replay_call context c → ¬ is_eventHandler c.
Proof. destruct c; simpl; tauto. Qed.

(** C4. When the registered handler of a command throws [e],
    [handleCommand] throws the same [e]; the handler's call is the last
    call of the dispatch, so nothing is folded or materialized afterwards
    (the identifier and clock oracles are exactly as before the dispatch)
    and no event handler is called. *)
Theorem handleCommand_handler_throws E command h w s0 w0 c0 e a1 :
  commands E !! cmd_type command = Some h →
  createState E (ch_context h) (cmd_subjects command) w = (Returned s0, w0, c0) →
  ch_handle h (cmd_data command) s0 (app w0) = (Threw e, a1) →
  handleCommand E command w
    = (Threw e, set_app a1 w0, c0 ++ [HandleCall h (cmd_data command) s0]) ∧
  entropy (set_app a1 w0) = entropy w ∧
  clock (set_app a1 w0) = clock w ∧
  Forall (λ c, ¬ is_eventHandler c) (c0 ++ [HandleCall h (cmd_data command) s0]).
Proof.
  intros Hh Hcs Hhandle.
  pose proof (createState_same_oracles E (ch_context h) (cmd_subjects command) w)
    as [Hen Hcl].
  pose proof (createState_emits E (ch_context h) (cmd_subjects command) w) as Hc0.
  rewrite Hcs in Hen, Hcl, Hc0. simpl in *.
  split; [|split; [done|split; [done|]]].
  - rewrite (handleCommand_known _ _ _ Hh), bind_run, Hcs, bind_run, invoke_run, Hhandle.
    done.
  - apply Forall_app. split; [|by repeat constructor; auto].
    eapply Forall_impl; [exact Hc0|]. apply replay_call_not_eventHandler.
Qed.

(** ** The returned state *)

Lemma set_app_app w : set_app (app w) w = w.
Proof. by destruct w. Qed.

Lemma set_app_set_app (a a' : App) w : set_app a (set_app a' w) = set_app a w.
Proof. done. Qed.

Lemma executeEvent_run E context event state w :
  executeEvent E context event state w =
    match stateRebuilder E !! createKey context (ev_type event) with
    | Some r =>
      if decide (sr_context r = context)
      then ((sr_stateRebuilder r (ev_data event) state (app w)).1,
            set_app (sr_stateRebuilder r (ev_data event) state (app w)).2 w,
            [RebuildCall r (ev_data event) state])
      else (Returned state, w, [])
    | None => (Returned state, w, [])
    end.
Proof.
  unfold executeEvent. destruct (stateRebuilder E !! _) as [r|]; [|done].
  case_decide; [|done]. apply invoke_run.
Qed.

Lemma folds_for_fold E context events state a state' a' :
  folds E context events state a state' a' →
  ∀ w, app w = a →
    ∃ calls, for_fold (executeEvent E context) events state w
               = (Returned state', set_app a' w, calls).
Proof.
  induction 1 as [state a | ev evs state a state' a' Hskip _ IH
                 | ev evs r state a s1 a1 state' a' Hr Hctx Hcall _ IH];
    intros w Hw; simpl.
  - exists []. subst a. by rewrite set_app_app.
  - destruct (IH w Hw) as [calls Hrun]. exists calls.
    rewrite bind_run, executeEvent_run.
    destruct (stateRebuilder E !! _) as [r|] eqn:Hr; [case_decide|].
    + by destruct (Hskip r).
    + by rewrite Hrun.
    + by rewrite Hrun.
  - destruct (IH (set_app a1 w) eq_refl) as [calls Hrun]. eexists.
    rewrite bind_run, executeEvent_run, Hr. rewrite decide_True by done.
    subst a. rewrite Hcall. simpl. rewrite Hrun. done.
Qed.

Lemma for_fold_folds E context events : ∀ state w state' w' calls,
  for_fold (executeEvent E context) events state w = (Returned state', w', calls) →
  folds E context events state (app w) state' (app w') ∧
  w' = set_app (app w') w.
Proof.
  induction events as [|ev evs IH]; intros state w state' w' calls; simpl.
  - intros [= <- <- _]. split; [constructor | by rewrite set_app_app].
  - intros (s1 & w1 & c1 & c2 & Hstep & Hrest & ->)%bind_Returned.
    apply IH in Hrest as [Hfolds Hw'].
    rewrite executeEvent_run in Hstep.
    destruct (stateRebuilder E !! _) as [r|] eqn:Hr.
    + case_decide as Hctx.
      * destruct (sr_stateRebuilder r (ev_data ev) state (app w))
          as [o a1] eqn:Hcall. simpl in Hstep. injection Hstep as -> <- _.
        split; [by eapply folds_apply|]. by rewrite Hw'.
      * injection Hstep as <- <- _. split; [|done].
        apply folds_skip; [|done]. intros r' Hr'. congruence.
    + injection Hstep as <- <- _. split; [|done].
      apply folds_skip; [|done]. intros r' Hr'. congruence.
Qed.

(** C2, for dispatches that complete. For a command whose handler is
    registered and returns [newEvents] on the reconstructed state [s0],
    [handleCommand] returns exactly when the fold of [newEvents], in
    order, through the rebuilders of the handler's context and then the
    fan-out to the event handlers both complete without throwing, and
    the value it returns is the state [s] that this fold leaves. *)
Theorem handleCommand_returns_folded_state E command h w s0 w0 c0 newEvents a1 :
  commands E !! cmd_type command = Some h →
  createState E (ch_context h) (cmd_subjects command) w = (Returned s0, w0, c0) →
  ch_handle h (cmd_data command) s0 (app w0) = (Returned newEvents, a1) →
  ∀ s w',
    (∃ calls, handleCommand E command w = (Returned s, w', calls)) ↔
    (∃ a2 cloudEvents w3 c4,
       folds E (ch_context h) newEvents s0 a1 s a2 ∧
       map_ (materialize E) newEvents (set_app a2 w0)
         = (Returned cloudEvents, w3, []) ∧
       for_each (fanOut E s) cloudEvents w3 = (Returned tt, w', c4)).
Proof.
  intros Hh Hcs Hhandle s w'. split.
  - intros [calls Hrun].
    apply (handleCommand_Returned _ _ _ _ _ _ _ Hh) in Hrun
      as (s0' & w0' & c0' & evs & a1' & w2 & c2 & ces & w3 & c4 &
          Hcs' & Hhandle' & Hfold & Hmat & Hfan & _).
    rewrite Hcs in Hcs'. injection Hcs' as <- <- <-.
    rewrite Hhandle in Hhandle'. injection Hhandle' as <- <-.
    apply for_fold_folds in Hfold as [Hfolds Hw2]. simpl in Hfolds.
    exists (app w2), ces, w3, c4. split; [done|]. split; [|done].
    rewrite Hw2 in Hmat. exact Hmat.
  - intros (a2 & ces & w3 & c4 & Hfolds & Hmat & Hfan).
    destruct (folds_for_fold _ _ _ _ _ _ _ Hfolds (set_app a1 w0) eq_refl)
      as [c2 Hfold].
    eexists. apply (handleCommand_Returned _ _ _ _ _ _ _ Hh).
    by exists s0, w0, c0, newEvents, a1, (set_app a2 w0), c2, ces, w3, c4.
Qed.

(** ** Fan-out to event handlers *)

Lemma registerEventhandler_appends E type func :
  eventHandler (registerEventhandler type func E).2 !! type
  = Some (default [] (eventHandler E !! type) ++ [mkEventHandler type func]).
Proof. simpl. by rewrite lookup_insert_eq. Qed.

(** C8, for dispatches that complete. [registerEventhandler] puts a
    handler at the end of the list of its type.  In a dispatch that completes without throwing, the
    calls of event handlers are the last calls of the dispatch, after the
    fold that produced the returned state [s]; taken event by event in the
    order of the materialized events, they are one call of each handler
    in the list of the event's type, in the order of the list, each with
    the materialized event and [s]. *)
Theorem handleCommand_fan_out E command h w s w' calls :
  commands E !! cmd_type command = Some h →
  handleCommand E command w = (Returned s, w', calls) →
  (∀ E0 type func,
     eventHandler (registerEventhandler type func E0).2 !! type
     = Some (default [] (eventHandler E0 !! type) ++ [mkEventHandler type func])) ∧
  ∃ s0 w0 a1 newEvents before w2 cloudEvents w3,
    ch_handle h (cmd_data command) s0 (app w0) = (Returned newEvents, a1) ∧
    map_ (materialize E) newEvents w2 = (Returned cloudEvents, w3, []) ∧
    calls = before
            ++ concat (map (λ cloudEvent,
                 map (λ eh, EventHandlerCall eh cloudEvent s)
                     (default [] (eventHandler E !! ev_type cloudEvent)))
                 cloudEvents) ∧
    HandleCall h (cmd_data command) s0 ∈ before ∧
    Forall (λ c, ¬ is_eventHandler c) before.
Proof.
  intros Hh Hrun. split; [apply registerEventhandler_appends|].
  apply (handleCommand_Returned _ _ _ _ _ _ _ Hh) in Hrun
    as (s0 & w0 & c0 & evs & a1 & w2 & c2 & ces & w3 & c4 &
        Hcs & Hhandle & Hfold & Hmat & Hfan & ->).
  exists s0, w0, a1, evs, (c0 ++ HandleCall h (cmd_data command) s0 :: c2), w2, ces, w3.
  split; [done|]. split; [done|]. split; [|split].
  - apply for_each_fanOut_Returned in Hfan. rewrite Hfan.
    rewrite <- app_assoc. done.
  - apply elem_of_app. right. left.
  - apply Forall_app. split; [|constructor; [auto|]].
    + pose proof (createState_emits E (ch_context h) (cmd_subjects command) w) as Hc0.
      rewrite Hcs in Hc0. eapply Forall_impl; [exact Hc0|].
      apply replay_call_not_eventHandler.
    + pose proof (for_fold_emits (replay_call (ch_context h))
        (executeEvent E (ch_context h)) evs s0) as Hc2.
      specialize (Hc2 (λ ev st _, emits_impl _ _ _
        (rebuild_of_replay_call E _ ev st) (executeEvent_emits E _ ev st))
        (set_app a1 w0)).
      rewrite Hfold in Hc2. eapply Forall_impl; [exact Hc2|].
      apply replay_call_not_eventHandler.
Qed.

(** ** Context isolation *)

Lemma materialize_emits (P : Call App → Prop) E event :
  emits P (materialize E event).
Proof. intros w. rewrite materialize_run. constructor. Qed.

Lemma handleCommand_emits_rebuilds_under E command h :
  commands E !! cmd_type command = Some h →
  emits (rebuilds_under (ch_context h)) (handleCommand E command).
Proof.
  intros Hh. rewrite (handleCommand_known _ _ _ Hh).
  apply bind_emits.
  { eapply emits_impl; [|apply createState_emits]. by intros []. }
  intros s0. apply bind_emits; [by apply invoke_emits|].
  intros evs. apply bind_emits.
  { apply for_fold_emits. intros ev st _.
    eapply emits_impl; [|apply executeEvent_emits]. by intros c (r & -> & _ & ?). }
  intros s. apply bind_emits.
  { apply map__emits. intros ev _. apply materialize_emits. }
  intros ces. apply bind_emits; [|intros; apply ret_emits].
  apply for_each_emits. intros ce _.
  eapply emits_impl; [|apply fanOut_emits]. by intros [].
Qed.

(** C6. Let [r] be the registry entry that
    [registerStateRebuilder X contextA builderHandler] stores, and let
    [contextB] differ from [contextA].  Then [r] is not called in any
    replay under [contextB]: neither by [createState] under [contextB] nor
    by [handleCommand] for a command whose handler's context is
    [contextB] (its reconstruction and its fold of the new events),
    whatever the types of the replayed events. *)
Theorem rebuilder_of_other_context_is_not_called
    E (contextA contextB X : string) builderHandler :
  contextA ≠ contextB →
  let r := mkStateRebuilder X contextA builderHandler in
  (∀ subjects w data state,
     RebuildCall r data state ∉ calls_of (createState E contextB subjects w)) ∧
  (∀ command h w data state,
     commands E !! cmd_type command = Some h → ch_context h = contextB →
     RebuildCall r data state ∉ calls_of (handleCommand E command w)).
Proof.
  intros Hne r. split.
  - intros subjects w data state Hin.
    pose proof (createState_emits E contextB subjects w) as Hall.
    rewrite Forall_forall in Hall. apply Hall in Hin. simpl in Hin. done.
  - intros command h w data state Hh Hctx Hin.
    pose proof (handleCommand_emits_rebuilds_under E command h Hh w) as Hall.
    rewrite Forall_forall in Hall. apply Hall in Hin. simpl in Hin. congruence.
Qed.

(** ** Duplicate registrations *)

(** C5. When [type] already has a command handler [h],
    [registerCommandHandler type context commandHandler] throws the
    "already exists" error whatever [context] is, and leaves the engine as
    it was; in particular [h] is still the handler of [type]. *)
Theorem registerCommandHandler_duplicate_throws
    E (type context : string) h commandHandler :
  commands E !! type = Some h →
  registerCommandHandler type context commandHandler E
    = (Threw (Error ("Command handler for " +:+ type +:+ " already exists")), E) ∧
  commands (registerCommandHandler type context commandHandler E).2 !! type
    = Some h.
Proof. intros Hh. unfold registerCommandHandler. by rewrite Hh. Qed.

(** C9. The pairs (context ["a|b"], type ["c"]) and (context ["a"], type
    ["b|c"]) are distinct and have the same key ["[a|b|c]"].  On a fresh
    engine, registering a state rebuilder for the first pair succeeds,
    and registering one for the second pair then throws the duplicate
    error and changes nothing, although no entry of the registry has
    context ["a"] and type ["b|c"]. *)
Theorem registerStateRebuilder_key_collision
    (f g : any → any → Closure App any) :
  ("a|b", "c") ≠ ("a", "b|c") ∧
  createKey "a|b" "c" = "[a|b|c]" ∧ createKey "a" "b|c" = "[a|b|c]" ∧
  let first := registerStateRebuilder "c" "a|b" f initial in
  first.1 = Returned tt ∧
  registerStateRebuilder "b|c" "a" g first.2
    = (Threw (Error "State rebuilder for [a|b|c] already exists"), first.2) ∧
  ∀ key r, stateRebuilder first.2 !! key = Some r →
    ¬ (sr_context r = "a" ∧ sr_type r = "b|c").
Proof.
  split; [done|]. split; [done|]. split; [done|]. simpl.
  split; [done|]. split.
  - reflexivity.
  - intros key r Hr [Hctx _].
    unfold registerStateRebuilder, initial in Hr. simpl in Hr.
    rewrite lookup_empty in Hr. simpl in Hr.
    apply lookup_insert_Some in Hr as [[_ <-] | [_ Hr]]; [done|].
    by rewrite lookup_empty in Hr.
Qed.

(** ** Upcasting *)

(** C1 (what the code does). After [registerUpcaster type context func] on
    a fresh engine the upcaster is stored under the key
    [createKey context type], but [maybeUpcast] looks the event's bare
    type up: for an event of that very type it finds nothing, does not
    call [func], and returns the event as it is. *)
Theorem maybeUpcast_misses_registered_upcaster
    (context : string) func (event : CloudEvent) w :
  let registration := registerUpcaster (ev_type event) context func initial in
  registration.1 = Returned tt ∧
  upcastHandler registration.2 !! createKey context (ev_type event)
    = Some (mkUpCasthandler (ev_type event) context func) ∧
  maybeUpcast registration.2 event w = (Returned event, w, []).
Proof.
  simpl. unfold registerUpcaster. simpl. rewrite lookup_empty. simpl.
  split; [done|]. split; [by rewrite lookup_insert_eq|].
  unfold maybeUpcast. simpl.
  rewrite lookup_insert_ne by apply createKey_not_type.
  by rewrite lookup_empty.
Qed.

Lemma bind_calls_Forall {A B} (P : Call App → Prop)
    (m : M App A) (k : A → M App B) w :
  Forall P (calls_of (m w)) →
  (∀ a w1 calls1, m w = (Returned a, w1, calls1) → Forall P (calls_of (k a w1))) →
  Forall P (calls_of (bind m k w)).
Proof.
  intros Hm Hk. rewrite bind_run.
  destruct (m w) as [[[a|e] w1] calls1] eqn:Hrun; simpl in *; [|done].
  apply Forall_app. split; [done | by eapply Hk].
Qed.

Lemma replay_upcasts_given_events E context (events : list CloudEvent) :
  emits (upcasts_among events)
    (do events' <- map_ (maybeUpcast E) events ;;
     for_fold (executeEvent E context) events' JNull).
Proof.
  apply bind_emits.
  - apply map__emits. intros ev Hev.
    eapply emits_impl; [|apply maybeUpcast_emits]. by intros c (u & -> & _).
  - intros events'. apply for_fold_emits. intros ev st _.
    eapply emits_impl; [|apply executeEvent_emits]. by intros c (r & -> & _).
Qed.

Lemma createState_upcasts_loaded E context subjects w :
  Forall (upcasts_among (loaded E context subjects w))
         (calls_of (createState E context subjects w)).
Proof.
  unfold createState, loaded. rewrite bind_run.
  destruct (stateLoader E !! context) as [l|].
  - rewrite invoke_run.
    destruct (sl_load l subjects (app w)) as [[events|e] a']; simpl.
    + constructor; [done|]. apply replay_upcasts_given_events.
    + by repeat constructor.
  - simpl. constructor.
Qed.

Lemma materialized_are_wires E newEvents w cloudEvents w' calls :
  map_ (materialize E) newEvents w = (Returned cloudEvents, w', calls) →
  ∀ cloudEvent, cloudEvent ∈ cloudEvents →
    ∃ event uuid instant,
      event ∈ newEvents ∧ cloudEvent = wire E uuid instant event.
Proof.
  intros Hrun ce Hce.
  destruct (map_materialize_run E newEvents w)
    as (ces & w1 & Hrun' & _ & _ & _ & Hlen & Hces).
  rewrite Hrun in Hrun'. injection Hrun' as -> -> ->.
  apply list_elem_of_lookup in Hce as [i Hi].
  destruct (newEvents !! i) as [ev|] eqn:Hev.
  - rewrite (Hces _ _ Hev) in Hi. injection Hi as <-.
    eexists ev, _, _. split; [|done]. apply list_elem_of_lookup. eauto.
  - apply lookup_ge_None in Hev. apply lookup_lt_Some in Hi. lia.
Qed.

Lemma live_call_not_upcast E h command newEvents (c : Call App) :
  live_call E h command newEvents c → ¬ is_upcast c.
Proof. destruct c; simpl; tauto. Qed.

(** What [handleCommand] does once the command handler has returned. *)
Lemma after_handler_emits E h command newEvents s0 w1 :
  Forall (live_call E h command newEvents)
    (calls_of
       ((do state <- for_fold (executeEvent E (ch_context h)) newEvents s0 ;;
         do cloudEvents <- map_ (materialize E) newEvents ;;
         do _ <- for_each (fanOut E state) cloudEvents ;;
         ret state) w1)).
Proof.
  apply bind_calls_Forall.
  { apply for_fold_emits. intros ev st Hev.
    eapply emits_impl; [|apply executeEvent_emits].
    intros c (r & -> & Hr & _). simpl. eauto. }
  intros s w2 c2 _. apply bind_calls_Forall; [apply map__emits; intros; apply materialize_emits|].
  intros ces w3 c3 Hmat.
  apply bind_calls_Forall; [|intros; apply ret_emits].
  apply for_each_emits. intros ce Hce.
  destruct (materialized_are_wires _ _ _ _ _ _ Hmat ce Hce)
    as (ev & uuid & instant & Hev & ->).
  unfold fanOut. destruct (eventHandler E !! _); [|apply ret_emits].
  apply for_each_emits. intros eh _. apply invoke_emits. simpl. eauto.
Qed.

Lemma bind_assoc {A B C} (m : M App A) (k : A → M App B) (k' : B → M App C) w :
  bind (bind m k) k' w = bind m (λ a, bind (k a) k') w.
Proof.
  unfold bind. destruct (m w) as [[[a|e] w1] c1]; [|done].
  destruct (k a w1) as [[[b|e] w2] c2]; [|done].
  destruct (k' b w2) as [[o w3] c3]. by rewrite app_assoc.
Qed.

Lemma bind_ext {A B} (m : M App A) (k k' : A → M App B) w :
  (∀ a w1, k a w1 = k' a w1) → bind m k w = bind m k' w.
Proof.
  intros Hk. unfold bind. destruct (m w) as [[[a|e] w1] c1]; [|done].
  by rewrite Hk.
Qed.

Lemma createState_replayed E context subjects w :
  createState E context subjects w
  = bind (replayed E context subjects)
         (λ events, for_fold (executeEvent E context) events JNull) w.
Proof. unfold createState, replayed. by rewrite bind_assoc. Qed.

Lemma map_maybeUpcast_calls E (events : list CloudEvent) : ∀ w events' w' calls,
  map_ (maybeUpcast E) events w = (Returned events', w', calls) →
  calls = upcast_calls E events.
Proof.
  induction events as [|ev evs IH]; intros w events' w' calls; simpl.
  - by intros [= _ _ <-].
  - intros (ev' & w1 & c1 & c2 & Hup & Hrest & ->)%bind_Returned.
    apply bind_Returned in Hrest as (evs' & w2 & c3 & c4 & Hmap & Hret & ->).
    injection Hret as _ _ <-. rewrite app_nil_r.
    apply IH in Hmap as ->. unfold maybeUpcast in Hup.
    destruct (upcastHandler E !! ev_type ev) as [u|].
    + rewrite invoke_run in Hup. by injection Hup as _ _ <-.
    + by injection Hup as _ _ <-.
Qed.

(** When the loader and the upcasters return, the replay has called the
    loader, if there is one, then one upcaster for each loaded event
    that has one under its type, and after that no upcaster. *)
Lemma createState_upcasts_each_loaded_event E context subjects w events w1 c1 :
  replayed E context subjects w = (Returned events, w1, c1) →
  ∃ folding,
    calls_of (createState E context subjects w) = c1 ++ folding ∧
    c1 = match stateLoader E !! context with
         | Some l => [LoadCall l subjects]
         | None => []
         end ++ upcast_calls E (loaded E context subjects w) ∧
    Forall (λ c, ¬ is_upcast c) folding.
Proof.
  intros Hrep. rewrite createState_replayed, bind_run, Hrep.
  eexists. split; [done|]. split.
  - unfold replayed in Hrep.
    apply bind_Returned in Hrep as (evs & w0 & c0 & c2 & Hload & Hmap & ->).
    apply map_maybeUpcast_calls in Hmap as ->. unfold loaded.
    destruct (stateLoader E !! context) as [l|].
    + rewrite invoke_run in Hload.
      destruct (sl_load l subjects (app w)) as [o a']. simpl in *.
      by injection Hload as -> _ <-.
    + by injection Hload as <- _ <-.
  - pose proof (for_fold_emits (λ c, ¬ is_upcast c) (executeEvent E context)
      events JNull) as Hfold.
    apply Hfold. intros ev st _.
    eapply emits_impl; [|apply executeEvent_emits]. by intros c (r & -> & _) [].
Qed.

Lemma for_fold_rebuilds_given_events E context (events : list CloudEvent) state :
  emits (λ c, ∃ event state', event ∈ events ∧ rebuild_of E context event state' c)
        (for_fold (executeEvent E context) events state).
Proof.
  apply for_fold_emits. intros ev st Hev.
  eapply emits_impl; [|apply executeEvent_emits]. intros c Hc. eauto.
Qed.

(** C10. In every [handleCommand] call for a registered command, the calls
    are those of the state reconstruction followed by others.  In the
    reconstruction an upcaster is only ever applied to an event that the
    state loader returned, and when the loader and the upcasters return
    it is applied once to each loaded event that has an upcaster under
    its type, in order, before the fold.  Among the other calls there
    is no call of an upcaster at all, whatever upcasters are
    registered.  Once the command handler has returned [newEvents], the
    dispatch goes on with the fold of [newEvents] themselves through
    [executeEvent], the materialization of [newEvents] themselves and
    the fan-out: each later rebuilder is looked up under the own type
    of one of [newEvents] and called with its data, and each event
    handler is called with the wire form of one of [newEvents]
    itself.  When the dispatch completes, the state it returns is the
    result of folding [newEvents] as they are, and the calls after the
    handler's are exactly the calls of that fold followed by the calls
    of the event handlers for the wire forms of [newEvents]. *)
Theorem handleCommand_upcasts_history_only E command h w :
  commands E !! cmd_type command = Some h →
  let replay := createState E (ch_context h) (cmd_subjects command) w in
  ∃ rest,
    calls_of (handleCommand E command w) = calls_of replay ++ rest ∧
    (∀ u event, UpcastCall u event ∈ calls_of replay →
       event ∈ loaded E (ch_context h) (cmd_subjects command) w) ∧
    (∀ events w1 c1,
       replayed E (ch_context h) (cmd_subjects command) w
         = (Returned events, w1, c1) →
       ∃ folding,
         calls_of replay = c1 ++ folding ∧
         c1 = match stateLoader E !! ch_context h with
              | Some l => [LoadCall l (cmd_subjects command)]
              | None => []
              end
              ++ upcast_calls E (loaded E (ch_context h) (cmd_subjects command) w) ∧
         Forall (λ c, ¬ is_upcast c) folding) ∧
    Forall (λ c, ¬ is_upcast c) rest ∧
    ∀ s0 w0 c0 newEvents a1,
      replay = (Returned s0, w0, c0) →
      ch_handle h (cmd_data command) s0 (app w0) = (Returned newEvents, a1) →
      Forall (live_call E h command newEvents) rest ∧
      (let post :=
         (do state <- for_fold (executeEvent E (ch_context h)) newEvents s0 ;;
          do cloudEvents <- map_ (materialize E) newEvents ;;
          do _ <- for_each (fanOut E state) cloudEvents ;;
          ret state) (set_app a1 w0) in
       handleCommand E command w
       = (outcome_of post, world_of post,
          c0 ++ HandleCall h (cmd_data command) s0 :: calls_of post)) ∧
      ∀ s w' calls,
        handleCommand E command w = (Returned s, w', calls) →
        ∃ a2 rebuilding cloudEvents w3,
          folds E (ch_context h) newEvents s0 a1 s a2 ∧
          map_ (materialize E) newEvents (set_app a2 w0)
            = (Returned cloudEvents, w3, []) ∧
          length cloudEvents = length newEvents ∧
          (∀ i event, newEvents !! i = Some event →
             ∃ uuid instant,
               cloudEvents !! i = Some (wire E uuid instant event)) ∧
          rest = HandleCall h (cmd_data command) s0
                 :: rebuilding ++ concat (map (fanOut_calls E s) cloudEvents) ∧
          Forall (λ c, ∃ event state, event ∈ newEvents ∧
                         rebuild_of E (ch_context h) event state c)
                 rebuilding.
Proof.
  intros Hh replay. rewrite (handleCommand_known _ _ _ Hh).
  destruct (bind_calls (createState E (ch_context h) (cmd_subjects command))
    (λ state,
      do newEvents <- invoke (HandleCall h (cmd_data command) state)
                             (ch_handle h (cmd_data command) state) ;;
      do state <- for_fold (executeEvent E (ch_context h)) newEvents state ;;
      do cloudEvents <- map_ (materialize E) newEvents ;;
      do _ <- for_each (fanOut E state) cloudEvents ;;
      ret state) w) as (rest & Hcalls & Hrest).
  exists rest. split; [exact Hcalls|]. split.
  { intros u event Hin.
    pose proof (createState_upcasts_loaded E (ch_context h) (cmd_subjects command) w)
      as Hall.
    rewrite Forall_forall in Hall. by apply Hall in Hin. }
  split; [intros events w1 c1; apply createState_upcasts_each_loaded_event|].
  fold replay in Hrest.
  assert (replay = createState E (ch_context h) (cmd_subjects command) w)
    as Hreplay by done.
  destruct replay as [[[s0|e] w0] c0];
    [|subst rest; split; [done|]; by intros].
  rewrite bind_run, invoke_run in Hrest.
  destruct (ch_handle h (cmd_data command) s0 (app w0)) as [[evs|e] a1] eqn:Hhandle;
    simpl in Hrest; subst rest.
  - pose proof (after_handler_emits E h command evs s0 (set_app a1 w0)) as Hlive.
    split.
    { constructor; [auto|]. eapply Forall_impl; [exact Hlive|].
      apply live_call_not_upcast. }
    intros s0' w0' c0' evs' a1' [= <- <- <-]. rewrite Hhandle. intros [= <- <-].
    split; [constructor; [done | exact Hlive]|]. split.
    { simpl. rewrite bind_run, <- Hreplay, bind_run, invoke_run, Hhandle. done. }
    intros s w' calls Hrun.
    rewrite <- (handleCommand_known _ _ _ Hh) in Hrun.
    apply (handleCommand_Returned _ _ _ _ _ _ _ Hh) in Hrun
      as (s0' & w0' & c0' & evs' & a1' & w2 & c2 & ces & w3 & c4 &
          Hcs & Hhandle' & Hfold & Hmat & Hfan & ->).
    rewrite <- Hreplay in Hcs. injection Hcs as <- <- <-.
    rewrite Hhandle in Hhandle'. injection Hhandle' as <- <-.
    pose proof (for_fold_rebuilds_given_events E (ch_context h) evs s0
                  (set_app a1 w0)) as Hc2.
    rewrite bind_run, Hfold. simpl. rewrite bind_run, Hmat. simpl.
    rewrite bind_run, Hfan. simpl. rewrite Hfold in Hc2.
    apply for_fold_folds in Hfold as [Hfolds Hw2]. simpl in Hfolds.
    destruct (map_materialize_run E evs w2)
      as (ces' & w3' & Hmat' & _ & _ & _ & Hlen & Hces).
    rewrite Hmat in Hmat'. injection Hmat' as <- <-.
    apply for_each_fanOut_Returned in Hfan as ->.
    exists (app w2), c2, ces, w3.
    split; [done|]. split; [by rewrite Hw2 in Hmat|]. split; [done|].
    split; [intros i event Hi; eauto|]. split; [by rewrite app_nil_r|done].
  - split; [by repeat constructor; auto|].
    intros s0' w0' c0' evs' a1' [= <- <- <-]. by rewrite Hhandle.
Qed.

(** In an engine built through the API every upcaster sits under the key
    made of its own context and type. *)
Lemma reachable_upcaster_keys E :
  reachable E →
  ∀ key u, upcastHandler E !! key = Some u →
    key = createKey (uc_context u) (uc_type u).
Proof.
  induction 1 as [|E r _ IH Hr]; intros key u.
  - simpl. by rewrite lookup_empty.
  - destruct Hr as [src|type context func|type func|context load
                   |type context ch|type context bh]; simpl; try apply IH.
    + unfold registerUpcaster. destruct (upcastHandler E !! _) eqn:Hkey; simpl;
        [apply IH|].
      intros [[<- <-] | [_ Hu]]%lookup_insert_Some; [done | by apply IH].
    + unfold registerCommandHandler. destruct (commands E !! _); simpl; apply IH.
    + unfold registerStateRebuilder. destruct (stateRebuilder E !! _); simpl; apply IH.
Qed.

Lemma createState_upcast_lookups E context subjects w :
  Forall (λ c, match c with
               | UpcastCall u event => upcastHandler E !! ev_type event = Some u
               | _ => True
               end)
         (calls_of (createState E context subjects w)).
Proof.
  unfold createState. apply bind_emits.
  { destruct (stateLoader E !! context); [by apply invoke_emits | apply ret_emits]. }
  intros events. apply bind_emits.
  - apply map__emits. intros ev _.
    eapply emits_impl; [|apply maybeUpcast_emits]. by intros c (u & -> & ?).
  - intros events'. apply for_fold_emits. intros ev st _.
    eapply emits_impl; [|apply executeEvent_emits]. by intros c (r & -> & _).
Qed.

(** X20. In an engine built through the API, a replay never applies an
    upcaster to an event of the type the upcaster was registered for:
    the event's type has to be the upcaster's whole key. *)
Lemma upcaster_never_sees_its_own_type E context subjects w u event :
  reachable E →
  UpcastCall u event ∈ calls_of (createState E context subjects w) →
  ev_type event = createKey (uc_context u) (uc_type u) ∧
  ev_type event ≠ uc_type u.
Proof.
  intros HE Hin.
  pose proof (createState_upcast_lookups E context subjects w) as Hall.
  rewrite Forall_forall in Hall. apply Hall in Hin.
  apply (reachable_upcaster_keys E HE) in Hin.
  split; [done|]. rewrite Hin. apply createKey_not_type.
Qed.

(** ** Default field fill-in *)

Lemma draws_take_le {A} (field : CloudEvent → option A) events : ∀ i j,
  i ≤ j → draws field (take i events) ≤ draws field (take j events).
Proof.
  induction events as [|ev evs IH]; intros [|i] [|j] Hij; simpl; try lia.
  specialize (IH i j). lia.
Qed.

Lemma draws_take_absent {A} (field : CloudEvent → option A) events : ∀ i event,
  events !! i = Some event → field event = None →
  draws field (take (S i) events) = S (draws field (take i events)).
Proof.
  induction events as [|ev evs IH]; intros [|i] event Hi Hnone; try done.
  - injection Hi as ->. simpl. by rewrite Hnone.
  - change (take (S (S i)) (ev :: evs)) with (ev :: take (S i) evs).
    change (take (S i) (ev :: evs)) with (ev :: take i evs).
    cbn [draws]. rewrite (IH i event Hi Hnone). lia.
Qed.

Lemma draws_take_lt {A} (field : CloudEvent → option A) events i j event :
  i < j → events !! i = Some event → field event = None →
  draws field (take i events) < draws field (take j events).
Proof.
  intros Hij Hi Hnone.
  pose proof (draws_take_absent field events i event Hi Hnone).
  pose proof (draws_take_le field events (S i) j). lia.
Qed.

Lemma setSource_source (src : string) (E0 : Engine App) :
  source (setSource src E0).2 = src.
Proof. done. Qed.

(** C7, with the handler's own [id] kept. Materializing the events a
    command handler returned never throws and calls no closure.  The wire event of each of them
    has: the [id] the handler supplied, carried through as it is, or else
    the next identifier of the generator; the [source] the handler
    supplied, or else the engine's default, which is what the last
    [setSource] stored; the [time] the handler supplied, or else the
    reading of the clock at that moment; [specversion] ["1.0"]; and the
    [type], [subject], [data], extension attributes, [datacontenttype]
    and [dataschema] of the handler's event.  When the generator yields
    non-empty, pairwise distinct identifiers, a generated [id] is
    non-empty, two events that both got a generated [id] have different
    ones, and the identifiers generated later are further ones. *)
Theorem materialize_fills_defaults E (newEvents : list CloudEvent) w :
  (∀ k, entropy w k ≠ "") →
  (∀ j k, entropy w j = entropy w k → j = k) →
  ∃ cloudEvents w',
    map_ (materialize E) newEvents w = (Returned cloudEvents, w', []) ∧
    length cloudEvents = length newEvents ∧
    (∀ i event, newEvents !! i = Some event →
       ∃ cloudEvent, cloudEvents !! i = Some cloudEvent ∧
         ev_id cloudEvent
           = Some (default (entropy w (draws ev_id (take i newEvents)))
                           (ev_id event)) ∧
         ev_source cloudEvent = Some (default (source E) (ev_source event)) ∧
         ev_time cloudEvent
           = Some (default (clock w (draws ev_time (take i newEvents)))
                           (ev_time event)) ∧
         ev_specversion cloudEvent = Some "1.0" ∧
         ev_type cloudEvent = ev_type event ∧
         ev_subject cloudEvent = ev_subject event ∧
         ev_data cloudEvent = ev_data event ∧
         ev_extensions cloudEvent = ev_extensions event ∧
         ev_datacontenttype cloudEvent = ev_datacontenttype event ∧
         ev_dataschema cloudEvent = ev_dataschema event ∧
         (ev_id event = None → ev_id cloudEvent ≠ Some "")) ∧
    (∀ i j ei ej ci cj,
       i ≠ j →
       newEvents !! i = Some ei → newEvents !! j = Some ej →
       ev_id ei = None → ev_id ej = None →
       cloudEvents !! i = Some ci → cloudEvents !! j = Some cj →
       ev_id ci ≠ ev_id cj) ∧
    (∀ k, entropy w' k = entropy w (draws ev_id newEvents + k)) ∧
    (∀ src E0, source (setSource src E0).2 = src).
Proof.
  intros Hne Hinj.
  destruct (map_materialize_run E newEvents w)
    as (ces & w' & Hrun & _ & Hen & _ & Hlen & Hces).
  exists ces, w'. split; [done|]. split; [done|].
  split; [|split; [|split; [done | apply setSource_source]]].
  - intros i event Hi. eexists. split; [by apply Hces|]. simpl.
    repeat split. intros ->. simpl. intros [= Hempty]. by eapply Hne.
  - intros i j ei ej ci cj Hij Hi Hj Hnonei Hnonej Hci Hcj.
    rewrite (Hces _ _ Hi) in Hci. rewrite (Hces _ _ Hj) in Hcj.
    injection Hci as <-. injection Hcj as <-. simpl.
    rewrite Hnonei, Hnonej. simpl. intros [= Heq%Hinj].
    destruct (decide (i < j)) as [Hlt|Hge].
    + pose proof (draws_take_lt ev_id newEvents i j ei Hlt Hi Hnonei). lia.
    + assert (j < i) as Hlt by lia.
      pose proof (draws_take_lt ev_id newEvents j i ej Hlt Hj Hnonej). lia.
Qed.

End Properties.

(** * The properties on the example applications *)

Lemma shelf_entropy_nonempty copies k : entropy (shelf copies) k ≠ "".
Proof. done. Qed.

Lemma shelf_entropy_inj copies j k :
  entropy (shelf copies) j = entropy (shelf copies) k → j = k.
Proof. simpl. intros [= Heq]. by apply (inj pretty). Qed.

Lemma handleCommand_unknown_command_is_noop_witness :
  commands library !! cmd_type unknown = None ∧
  handleCommand library unknown (shelf 2) = (Returned JNull, shelf 2, []).
Proof.
  split; [reflexivity|].
  apply handleCommand_unknown_command_is_noop. reflexivity.
Defined.

Lemma handleCommand_handler_throws_witness :
  ∃ w0 c0 a1,
    commands library !! cmd_type borrow = Some borrow_handler ∧
    createState library "inventory" ["/b/1"] (shelf 0) = (Returned (JNum 0), w0, c0) ∧
    borrowBook JNull (JNum 0) (app w0) = (Threw (Error "no copies left"), a1) ∧
    handleCommand library borrow (shelf 0)
      = (Threw (Error "no copies left"), set_app a1 w0,
         c0 ++ [HandleCall borrow_handler JNull (JNum 0)]).
Proof.
  eexists _, _, _.
  split; [reflexivity|]. split; [reflexivity|]. split; [reflexivity|].
  refine (proj1 (handleCommand_handler_throws library borrow borrow_handler
                   (shelf 0) (JNum 0) _ _ _ _ _ _ _));
    reflexivity.
Defined.

Lemma handleCommand_returns_folded_state_witness :
  ∃ w0 c0 a1 w',
    commands library !! cmd_type borrow = Some borrow_handler ∧
    createState library "inventory" ["/b/1"] (shelf 2) = (Returned (JNum 2), w0, c0) ∧
    borrowBook JNull (JNum 2) (app w0)
      = (Returned [minimal "Borrowed" "/b/1" JNull], a1) ∧
    ∃ calls, handleCommand library borrow (shelf 2) = (Returned (JNum 1), w', calls).
Proof.
  eexists _, _, _, _.
  split; [reflexivity|]. split; [reflexivity|]. split; [reflexivity|].
  refine (proj2 (handleCommand_returns_folded_state library borrow borrow_handler
                   (shelf 2) (JNum 2) _ _ _ _ _ _ _ (JNum 1) _) _);
    [reflexivity..|].
  eexists _, _, _, _. split.
  { eapply folds_apply; [reflexivity..|]. constructor. }
  split; reflexivity.
Defined.

(** The handler is registered and returns an event, yet the dispatch
    throws: the first event handler of the event's type failed. *)
Lemma handleCommand_throws_after_handler_returned :
  commands library_failing !! cmd_type borrow = Some borrow_handler ∧
  (∃ w0 c0 a1,
     createState library_failing "inventory" ["/b/1"] (shelf 2)
       = (Returned (JNum 2), w0, c0) ∧
     borrowBook JNull (JNum 2) (app w0)
       = (Returned [minimal "Borrowed" "/b/1" JNull], a1)) ∧
  (handleCommand library_failing borrow (shelf 2)).1.1 = Threw (Error "disk full") ∧
  ¬ ∃ s w' calls,
      handleCommand library_failing borrow (shelf 2) = (Returned s, w', calls).
Proof.
  split; [reflexivity|]. split; [by eexists _, _, _|]. split; [reflexivity|].
  intros (s & w' & calls & Hrun).
  apply (f_equal (λ r, r.1.1)) in Hrun. vm_compute in Hrun. discriminate.
Qed.

Lemma registerCommandHandler_duplicate_throws_witness :
  commands library !! "borrow" = Some borrow_handler ∧
  registerCommandHandler "borrow" "catalog" borrowBlank library
    = (Threw (Error "Command handler for borrow already exists"), library) ∧
  commands (registerCommandHandler "borrow" "catalog" borrowBlank library).2
    !! "borrow" = Some borrow_handler.
Proof.
  split; [reflexivity|].
  apply (registerCommandHandler_duplicate_throws library "borrow" "catalog"
           borrow_handler borrowBlank).
  reflexivity.
Defined.

Lemma rebuilder_of_other_context_is_not_called_witness :
  "catalog" ≠ "inventory" ∧
  stateRebuilder two_domains !! createKey "catalog" "Borrowed"
    = Some (mkStateRebuilder "Borrowed" "catalog" onRegistered) ∧
  RebuildCall (mkStateRebuilder "Borrowed" "catalog" onRegistered) JNull (JNum 2)
    ∉ (handleCommand two_domains borrow (shelf 2)).2.
Proof.
  assert ("catalog" ≠ "inventory") as Hne by done.
  split; [exact Hne|]. split; [reflexivity|].
  apply (proj2 (rebuilder_of_other_context_is_not_called two_domains
                  "catalog" "inventory" "Borrowed" onRegistered Hne)
           borrow borrow_handler (shelf 2) JNull (JNum 2));
    reflexivity.
Defined.

Lemma materialize_fills_defaults_witness :
  (∀ k, entropy (shelf 2) k ≠ "") ∧
  (∀ j k, entropy (shelf 2) j = entropy (shelf 2) k → j = k) ∧
  ∃ cloudEvents w',
    map_ (materialize library)
         [minimal "Borrowed" "/b/1" JNull; minimal "Borrowed" "/b/2" JNull]
         (shelf 2)
      = (Returned cloudEvents, w', []) ∧
    ev_id <$> cloudEvents = [Some "uuid-0"; Some "uuid-1"] ∧
    ev_source <$> cloudEvents
      = [Some "CQRS_DEFAULTSOURCE"; Some "CQRS_DEFAULTSOURCE"] ∧
    ev_specversion <$> cloudEvents = [Some "1.0"; Some "1.0"].
Proof.
  split; [apply shelf_entropy_nonempty|]. split; [apply shelf_entropy_inj|].
  destruct (materialize_fills_defaults library
              [minimal "Borrowed" "/b/1" JNull; minimal "Borrowed" "/b/2" JNull]
              (shelf 2) (shelf_entropy_nonempty 2) (shelf_entropy_inj 2))
    as (cloudEvents & w' & Hrun & _).
  exists cloudEvents, w'. split; [exact Hrun|].
  vm_compute in Hrun. injection Hrun as <- _. by vm_compute.
Defined.

(** A handler-supplied empty [id] is the [id] of the wire event, which
    reaches the event handlers with it. *)
Lemma materialized_id_can_be_empty :
  commands library_blank !! cmd_type borrow
    = Some (mkCommandHandler "borrow" "inventory" borrowBlank) ∧
  borrowBlank JNull JNull (app (shelf 2)) = (Returned [blank], app (shelf 2)) ∧
  ∃ cloudEvent w',
    map_ (materialize library_blank) [blank] (shelf 2)
      = (Returned [cloudEvent], w', []) ∧
    ev_id cloudEvent = Some "" ∧
    last (handleCommand library_blank borrow (shelf 2)).2
      = Some (EventHandlerCall (mkEventHandler "Borrowed" saveEvent)
                               cloudEvent JNull).
Proof.
  split; [reflexivity|]. split; [reflexivity|].
  eexists _, _. split; [reflexivity|]. split; reflexivity.
Qed.

Lemma handleCommand_fan_out_witness :
  ∃ w' calls before cloudEvents,
    commands library !! cmd_type borrow = Some borrow_handler ∧
    handleCommand library borrow (shelf 2) = (Returned (JNum 1), w', calls) ∧
    calls = before
            ++ concat (map (λ cloudEvent,
                 map (λ eh, EventHandlerCall eh cloudEvent (JNum 1))
                     (default [] (eventHandler library !! ev_type cloudEvent)))
                 cloudEvents) ∧
    Forall (λ c, ¬ is_eventHandler c) before.
Proof.
  destruct (handleCommand library borrow (shelf 2)) as [[o w'] calls] eqn:Hrun.
  assert (o = Returned (JNum 1)) as ->.
  { apply (f_equal (λ r, r.1.1)) in Hrun. vm_compute in Hrun. congruence. }
  destruct (proj2 (handleCommand_fan_out library borrow borrow_handler (shelf 2)
                     (JNum 1) w' calls eq_refl Hrun))
    as (s0 & w0 & a1 & newEvents & before & w2 & cloudEvents & w3 &
        _ & _ & Hcalls & _ & Hbefore).
  by exists w', calls, before, cloudEvents.
Defined.

(** Two event handlers are registered for ["Borrowed"]; the first one
    gets the materialized event and throws, and the second one is not
    called. *)
Lemma second_event_handler_is_skipped_when_first_throws :
  commands library_failing !! cmd_type borrow = Some borrow_handler ∧
  eventHandler library_failing !! "Borrowed"
    = Some [mkEventHandler "Borrowed" failingHandler;
            mkEventHandler "Borrowed" saveEvent] ∧
  (∃ cloudEvent,
     ev_type cloudEvent = "Borrowed" ∧
     last (handleCommand library_failing borrow (shelf 2)).2
       = Some (EventHandlerCall (mkEventHandler "Borrowed" failingHandler)
                                cloudEvent (JNum 1))) ∧
  ∀ cloudEvent state,
    EventHandlerCall (mkEventHandler "Borrowed" saveEvent) cloudEvent state
      ∉ (handleCommand library_failing borrow (shelf 2)).2.
Proof.
  split; [reflexivity|]. split; [reflexivity|].
  split; [eexists; split; [|reflexivity]; reflexivity|].
  intros cloudEvent state Hin. vm_compute in Hin.
  repeat (apply elem_of_cons in Hin as [Hin|Hin]; [try discriminate|]).
  - injection Hin as Hfun _ _.
    apply (f_equal (λ f, f blank JNull [])) in Hfun. discriminate.
  - by apply elem_of_nil in Hin.
Qed.

(** The stored event is upcast during the reconstruction; the new event
    has that very type, and an upcaster that [maybeUpcast] would apply
    to it is registered, yet it is folded by the rebuilder of its own
    type and handed to the event handler of its own type as it is. *)
Lemma handleCommand_upcasts_history_only_witness :
  ∃ w0 a1 w' a2,
    commands library_keyed !! cmd_type restock_command = Some restock_handler ∧
    upcastHandler library_keyed !! ev_type restocked
      = Some (mkUpCasthandler "Registered" "inventory" upcastRegistered) ∧
    (maybeUpcast library_keyed restocked w0).2
      = [UpcastCall (mkUpCasthandler "Registered" "inventory" upcastRegistered)
                    restocked] ∧
    createState library_keyed "inventory" ["/b/1"] shelf_keyed
      = (Returned (JNum 2), w0,
         [LoadCall (mkStateLoaderFunction stateLoading "inventory") ["/b/1"];
          UpcastCall (mkUpCasthandler "Registered" "inventory" upcastRegistered)
                     (minimal "[inventory|Registered]" "/b/1" (JNum 2));
          RebuildCall (mkStateRebuilder "Registered.v2" "inventory" onRegistered)
                      (JNum 2) JNull]) ∧
    restock JNull (JNum 2) (app w0) = (Returned [restocked], a1) ∧
    handleCommand library_keyed restock_command shelf_keyed
      = (Returned (JNum 1), w',
         [LoadCall (mkStateLoaderFunction stateLoading "inventory") ["/b/1"];
          UpcastCall (mkUpCasthandler "Registered" "inventory" upcastRegistered)
                     (minimal "[inventory|Registered]" "/b/1" (JNum 2));
          RebuildCall (mkStateRebuilder "Registered.v2" "inventory" onRegistered)
                      (JNum 2) JNull;
          HandleCall restock_handler JNull (JNum 2);
          RebuildCall (mkStateRebuilder "[inventory|Registered]" "inventory"
                                        onBorrowed) (JNum 5) (JNum 2);
          EventHandlerCall (mkEventHandler "[inventory|Registered]" saveEvent)
            (wire library_keyed "uuid-0" "2025-01-01T00:00:00Z" restocked)
            (JNum 1)]) ∧
    Forall (λ c, ¬ is_upcast c)
      [HandleCall restock_handler JNull (JNum 2);
       RebuildCall (mkStateRebuilder "[inventory|Registered]" "inventory"
                                     onBorrowed) (JNum 5) (JNum 2);
       EventHandlerCall (mkEventHandler "[inventory|Registered]" saveEvent)
         (wire library_keyed "uuid-0" "2025-01-01T00:00:00Z" restocked)
         (JNum 1)] ∧
    folds library_keyed "inventory" [restocked] (JNum 2) a1 (JNum 1) a2.
Proof.
  destruct (handleCommand_upcasts_history_only library_keyed restock_command
              restock_handler shelf_keyed eq_refl)
    as (rest & Hcalls & _ & _ & Hnoup & Hlive).
  assert (rest =
    [HandleCall restock_handler JNull (JNum 2);
     RebuildCall (mkStateRebuilder "[inventory|Registered]" "inventory"
                                   onBorrowed) (JNum 5) (JNum 2);
     EventHandlerCall (mkEventHandler "[inventory|Registered]" saveEvent)
       (wire library_keyed "uuid-0" "2025-01-01T00:00:00Z" restocked)
       (JNum 1)]) as ->.
  { eapply app_inv_head.
    transitivity (calls_of (handleCommand library_keyed restock_command shelf_keyed));
      [symmetry; exact Hcalls | reflexivity]. }
  destruct (Hlive (JNum 2) _ _ [restocked] _ eq_refl eq_refl) as (_ & _ & Hdone).
  destruct (Hdone (JNum 1) _ _ eq_refl)
    as (a2 & rebuilding & cloudEvents & w3 & Hfolds & _).
  eexists _, _, _, a2.
  split; [reflexivity|]. split; [reflexivity|]. split; [reflexivity|].
  split; [reflexivity|]. split; [reflexivity|]. split; [reflexivity|].
  split; [exact Hnoup | exact Hfolds].
Defined.

(** The README's scenario: an upcaster registered for the stored event's
    type and the replay's context is not called during the replay, and
    the rebuilder of the new type never sees the event. *)
Example createState_does_not_upcast_stored_event :
  upcastHandler library_v2 !! createKey "inventory" "Registered"
    = Some (mkUpCasthandler "Registered" "inventory" upcastRegistered) ∧
  app (shelf 2) = [minimal "Registered" "/b/1" (JNum 2)] ∧
  createState library_v2 "inventory" ["/b/1"] (shelf 2)
    = (Returned JNull, shelf 2,
       [LoadCall (mkStateLoaderFunction stateLoading "inventory") ["/b/1"]]).
Proof. split; [reflexivity|]. split; reflexivity. Qed.

(** The end-to-end scenario on a shelf of two copies: two dispatches
    succeed and leave one copy, then none; the third is rejected by the
    command handler, stores nothing and calls no event handler. *)
Example borrow_until_no_copy_is_left :
  let first := handleCommand library borrow (shelf 2) in
  let second := handleCommand library borrow first.1.2 in
  let third := handleCommand library borrow second.1.2 in
  first.1.1 = Returned (JNum 1) ∧
  second.1.1 = Returned (JNum 0) ∧
  third.1.1 = Threw (Error "no copies left") ∧
  ev_type <$> app second.1.2 = ["Registered"; "Borrowed"; "Borrowed"] ∧
  app third.1.2 = app second.1.2 ∧
  last third.2 = Some (HandleCall borrow_handler JNull (JNum 0)).
Proof. repeat split; reflexivity. Qed.

(** * Further properties of the registries and of the pipelines *)

Section Registry.

Context {App : Type}.
Implicit Types (E : Engine App) (w : World App).

#[local] Notation "'do' x <- m ;; k" := (bind m (λ x, k))
  (at level 10, x name, m at level 99, k at level 200).

(** ** Keys *)

Lemma append_cancel_r (s1 s2 x y : string) :
  String.length s1 = String.length s2 →
  s1 +:+ x = s2 +:+ y → s1 = s2 ∧ x = y.
Proof.
  revert s2. induction s1 as [|a s1 IH]; intros [|b s2]; simpl; try done.
  intros [= Hlen] [= -> Heq]. destruct (IH s2 Hlen Heq) as [-> ->]. done.
Qed.

Lemma append_inj_r (s1 s2 x : string) : s1 +:+ x = s2 +:+ x → s1 = s2.
Proof.
  intros Heq. apply (append_cancel_r s1 s2 x x); [|done].
  apply (f_equal String.length) in Heq. rewrite !length_append in Heq. lia.
Qed.

Lemma createKey_inj_type (context type type' : string) :
  createKey context type = createKey context type' → type = type'.
Proof.
  unfold createKey. intros Heq. apply (inj (String.app "[")) in Heq.
  apply (inj (String.app context)) in Heq.
  apply (inj (String.app "|")) in Heq. by apply append_inj_r in Heq.
Qed.

Lemma createKey_inj_context (context context' type : string) :
  createKey context type = createKey context' type → context = context'.
Proof.
  unfold createKey. intros Heq. apply (inj (String.app "[")) in Heq.
  by apply append_inj_r in Heq.
Qed.

(** X1. Two pairs with the same key differ in both components or in
    none: for one context [createKey] is injective in the type, and for
    one type it is injective in the context. *)
Theorem createKey_collides_only_when_both_differ
    (context context' type type' : string) :
  createKey context type = createKey context' type' →
  (context = context' ↔ type = type').
Proof.
  intros Heq. split.
  - intros <-. by eapply createKey_inj_type.
  - intros <-. by eapply createKey_inj_context.
Qed.

(** ** Entries sit under their own keys *)

Lemma initial_well_keyed : well_keyed (@initial App).
Proof.
  unfold well_keyed, initial; simpl.
  repeat split; intros ?; intros; by rewrite lookup_empty in *.
Qed.

Lemma api_call_well_keyed E r :
  api_call r → well_keyed E → well_keyed (r E).2.
Proof.
  intros Hr (Hc & Hr' & He & Hu & Hl).
  destruct Hr as [src|type context func|type func|context load
                 |type context ch|type context bh].
  - done.
  - unfold registerUpcaster. destruct (upcastHandler E !! _) eqn:Hkey; [done|].
    repeat split; simpl; try done.
    intros key u [[<- <-] | [_ Hin]]%lookup_insert_Some; [done | by apply Hu].
  - repeat split; simpl; try done.
    intros key handlers eh [[<- <-] | [_ Hin]]%lookup_insert_Some Heh;
      [|by eapply He].
    apply elem_of_app in Heh as [Heh | ->%list_elem_of_singleton]; [|done].
    destruct (eventHandler E !! type) as [old|] eqn:Hold; simpl in Heh.
    + by eapply He.
    + by apply elem_of_nil in Heh.
  - repeat split; simpl; try done.
    intros key l [[<- <-] | [_ Hin]]%lookup_insert_Some; [done | by apply Hl].
  - unfold registerCommandHandler. destruct (commands E !! _) eqn:Hkey; [done|].
    repeat split; simpl; try done.
    intros key h [[<- <-] | [_ Hin]]%lookup_insert_Some; [done | by apply Hc].
  - unfold registerStateRebuilder. destruct (stateRebuilder E !! _) eqn:Hkey; [done|].
    repeat split; simpl; try done.
    intros key r [[<- <-] | [_ Hin]]%lookup_insert_Some; [done | by apply Hr'].
Qed.

Lemma reachable_well_keyed E : reachable E → well_keyed E.
Proof.
  induction 1 as [|E r _ IH Hr]; [apply initial_well_keyed|].
  by apply api_call_well_keyed.
Qed.

Lemma reachable_startup rs E :
  Forall api_call rs → reachable E → reachable (startup rs E).2.
Proof.
  intros Hrs. revert E. induction Hrs as [|r rs Hr _ IH]; intros E HE; simpl; [done|].
  pose proof (reachable_call E r HE Hr) as HE'.
  destruct (r E) as [[[]|e] E']; simpl in *; [by apply IH | done].
Qed.

(** X2. Whatever registrations a startup sequence makes through the API,
    in whatever order, and whether or not one of them is rejected, each
    entry of the five registries ends up under the key made of its own
    fields: a command handler under its type, a rebuilder and an
    upcaster under the key of their context and type, an event handler
    in the list of its type, a state loader under its context. *)
Theorem startup_keeps_registries_well_keyed (rs : list (Registration App)) :
  Forall api_call rs → well_keyed (startup rs initial).2.
Proof.
  intros Hrs. apply reachable_well_keyed.
  apply reachable_startup; [done | constructor].
Qed.

(** ** Which rebuilder runs *)

(** X3. In an engine built through the API, [executeEvent] calls a
    rebuilder only if the rebuilder was registered for exactly the
    replay's context and the event's type, and then with the event's
    data and the current state: two pairs having the same key never
    makes the rebuilder of one run for the other. *)
Theorem executeEvent_calls_only_the_rebuilder_of_the_pair
    E (context : string) (event : CloudEvent) (state : any) w r data state' :
  reachable E →
  RebuildCall r data state' ∈ calls_of (executeEvent E context event state w) →
  sr_context r = context ∧ sr_type r = ev_type event ∧
  data = ev_data event ∧ state' = state.
Proof.
  intros HE Hin.
  pose proof (executeEvent_emits E context event state w) as Hall.
  rewrite Forall_forall in Hall. apply Hall in Hin as (r' & [= -> -> ->] & Hr & Hctx).
  destruct (reachable_well_keyed E HE) as (_ & Hkeys & _).
  apply Hkeys in Hr. rewrite Hctx in Hr.
  apply createKey_inj_type in Hr. done.
Qed.

(** X4. Registering a rebuilder for a pair whose key is free makes
    [executeEvent] apply it to every event of that type under that
    context, and changes nothing for any other context or type, also
    not for a pair that has the same key. *)
Theorem registered_rebuilder_is_applied_to_its_pair_only
    E (type context : string) builderHandler :
  stateRebuilder E !! createKey context type = None →
  let E' := (registerStateRebuilder type context builderHandler E).2 in
  (∀ event state w,
     ev_type event = type →
     executeEvent E' context event state w
     = ((builderHandler (ev_data event) state (app w)).1,
        set_app (builderHandler (ev_data event) state (app w)).2 w,
        [RebuildCall (mkStateRebuilder type context builderHandler)
                     (ev_data event) state])) ∧
  (∀ context' event state w,
     (context', ev_type event) ≠ (context, type) →
     executeEvent E' context' event state w
     = executeEvent E context' event state w).
Proof.
  intros Hfree E'. subst E'. unfold registerStateRebuilder. rewrite Hfree. simpl.
  split.
  - intros event state w <-. rewrite executeEvent_run. simpl.
    rewrite lookup_insert_eq. simpl. by rewrite decide_True.
  - intros context' event state w Hne. rewrite !executeEvent_run. simpl.
    destruct (decide (createKey context type = createKey context' (ev_type event)))
      as [Hkey|Hkey].
    + rewrite <- Hkey, lookup_insert_eq, Hfree. simpl.
      case_decide as Hctx; [|done]. subst context'.
      apply createKey_inj_type in Hkey. congruence.
    + by rewrite lookup_insert_ne.
Qed.

End Registry.

(** * Further properties of the pipelines *)

Section Pipelines.

Context {App : Type}.
Implicit Types (E : Engine App) (w : World App) (calls : list (Call App)).

#[local] Notation "'do' x <- m ;; k" := (bind m (λ x, k))
  (at level 10, x name, m at level 99, k at level 200).

#[local] Existing Instance same_oracles_preorder.

(** ** Replays that find nothing *)

Lemma map_maybeUpcast_no_upcaster E (events : list CloudEvent) w :
  (∀ event, event ∈ events → upcastHandler E !! ev_type event = None) →
  map_ (maybeUpcast E) events w = (Returned events, w, []).
Proof.
  induction events as [|ev evs IH]; intros Hnone; simpl; [done|].
  rewrite bind_run. unfold maybeUpcast at 1. rewrite (Hnone ev) by left. simpl.
  rewrite bind_run, IH; [done|]. intros; apply Hnone; by right.
Qed.

Lemma for_fold_no_rebuilder E context (events : list CloudEvent) state w :
  (∀ event r, event ∈ events →
     stateRebuilder E !! createKey context (ev_type event) = Some r →
     sr_context r ≠ context) →
  for_fold (executeEvent E context) events state w = (Returned state, w, []).
Proof.
  induction events as [|ev evs IH]; intros Hnone; simpl; [done|].
  rewrite bind_run, executeEvent_run.
  assert (for_fold (executeEvent E context) evs state w = (Returned state, w, []))
    as Hrest by (apply IH; intros; eapply Hnone; [by right | done]).
  destruct (stateRebuilder E !! _) as [r|] eqn:Hr.
  - rewrite decide_False by (eapply Hnone; [by left | done]). by rewrite Hrest.
  - by rewrite Hrest.
Qed.

(** X5. Under a context that has no state loader, [createState] returns
    [null] for any subjects, calls nothing and leaves the world as it
    is; a command handler of that context is therefore called with the
    state [null]. *)
Theorem createState_without_loader_is_null E (context : string) :
  stateLoader E !! context = None →
  (∀ subjects w, createState E context subjects w = (Returned JNull, w, [])) ∧
  (∀ command h w,
     commands E !! cmd_type command = Some h → ch_context h = context →
     head (calls_of (handleCommand E command w))
     = Some (HandleCall h (cmd_data command) JNull)).
Proof.
  intros Hnone.
  assert (∀ subjects w, createState E context subjects w = (Returned JNull, w, []))
    as Hcs by (intros; unfold createState; by rewrite Hnone).
  split; [done|]. intros command h w Hh <-.
  rewrite (handleCommand_known _ _ _ Hh), bind_run, Hcs, bind_run, invoke_run.
  by destruct (ch_handle h (cmd_data command) JNull (app w)) as [[evs|e] a1].
Qed.

(** X6. When the loader returns events none of which has an upcaster
    under its type or a rebuilder of the replay's context under its
    key, [createState] returns [null]: the events are skipped without
    an error, and the loader's call is the only call. *)
Theorem createState_skips_events_without_rebuilder
    E (context : string) (subjects : list string) w l events a' :
  stateLoader E !! context = Some l →
  sl_load l subjects (app w) = (Returned events, a') →
  (∀ event, event ∈ events → upcastHandler E !! ev_type event = None) →
  (∀ event r, event ∈ events →
     stateRebuilder E !! createKey context (ev_type event) = Some r →
     sr_context r ≠ context) →
  createState E context subjects w
  = (Returned JNull, set_app a' w, [LoadCall l subjects]).
Proof.
  intros Hl Hload Hup Hrb. unfold createState.
  rewrite Hl, bind_run, invoke_run, Hload. simpl.
  rewrite bind_run, map_maybeUpcast_no_upcaster by done. simpl.
  by rewrite for_fold_no_rebuilder.
Qed.

(** ** Failures of the loader *)

(** X7. When the state loader of the handler's context throws (its
    promise is rejected with) [e], [handleCommand] throws the same [e];
    the loader's call is the only call of the dispatch, so the command
    handler is not called at all. *)
Theorem handleCommand_loader_throws E command h w l e a' :
  commands E !! cmd_type command = Some h →
  stateLoader E !! ch_context h = Some l →
  sl_load l (cmd_subjects command) (app w) = (Threw e, a') →
  createState E (ch_context h) (cmd_subjects command) w
  = (Threw e, set_app a' w, [LoadCall l (cmd_subjects command)]) ∧
  handleCommand E command w
  = (Threw e, set_app a' w, [LoadCall l (cmd_subjects command)]).
Proof.
  intros Hh Hl Hload.
  assert (createState E (ch_context h) (cmd_subjects command) w
          = (Threw e, set_app a' w, [LoadCall l (cmd_subjects command)])) as Hcs.
  { unfold createState. by rewrite Hl, bind_run, invoke_run, Hload. }
  split; [done|].
  by rewrite (handleCommand_known _ _ _ Hh), bind_run, Hcs.
Qed.

(** ** A command that produces no event *)

(** X8. When the command handler returns no events, [handleCommand]
    returns the reconstructed state as it is; the handler's call is the
    last call, so no rebuilder runs after it and no event handler is
    called, and neither the generator nor the clock is read. *)
Theorem handleCommand_without_new_events E command h w s0 w0 c0 a1 :
  commands E !! cmd_type command = Some h →
  createState E (ch_context h) (cmd_subjects command) w = (Returned s0, w0, c0) →
  ch_handle h (cmd_data command) s0 (app w0) = (Returned [], a1) →
  handleCommand E command w
  = (Returned s0, set_app a1 w0, c0 ++ [HandleCall h (cmd_data command) s0]) ∧
  entropy (set_app a1 w0) = entropy w ∧ clock (set_app a1 w0) = clock w.
Proof.
  intros Hh Hcs Hhandle.
  pose proof (createState_same_oracles E (ch_context h) (cmd_subjects command) w)
    as [Hen Hcl].
  rewrite Hcs in Hen, Hcl. split; [|done].
  rewrite (handleCommand_known _ _ _ Hh), bind_run, Hcs, bind_run, invoke_run, Hhandle.
  done.
Qed.

(** ** Who is called *)

(** X9. Every call [createState] makes is a call of the state loader
    registered for its context, with the subjects it was given, of an
    upcaster found under the type of the event it is applied to, or of a
    rebuilder registered for its context: it never calls a command
    handler or an event handler. *)
Theorem createState_calls_loader_upcasters_rebuilders
    E (context : string) (subjects : list string) w :
  Forall (createState_call E context subjects)
         (calls_of (createState E context subjects w)).
Proof.
  unfold createState. apply bind_emits.
  { destruct (stateLoader E !! context) eqn:Hl;
      [by apply invoke_emits | apply ret_emits]. }
  intros events. apply bind_emits.
  - apply map__emits. intros ev _.
    eapply emits_impl; [|apply maybeUpcast_emits]. by intros c (u & -> & ?).
  - intros events'. apply for_fold_emits. intros ev st _.
    eapply emits_impl; [|apply executeEvent_emits]. by intros c (r & -> & _ & ?).
Qed.

Lemma handleCommand_emits_routed E command :
  emits (routed E) (handleCommand E command).
Proof.
  unfold handleCommand. destruct (commands E !! _) as [h|]; [|apply ret_emits].
  apply bind_emits.
  { eapply emits_impl; [|apply createState_emits]. by intros []. }
  intros s0. apply bind_emits; [by apply invoke_emits|].
  intros evs. apply bind_emits.
  { apply for_fold_emits. intros ev st _.
    eapply emits_impl; [|apply executeEvent_emits]. by intros c (r & -> & _). }
  intros s. apply bind_emits.
  { apply map__emits. intros ev _. apply materialize_emits. }
  intros ces. apply bind_emits; [|intros; apply ret_emits].
  apply for_each_emits. intros ce _. unfold fanOut.
  destruct (eventHandler E !! ev_type ce) as [handlers|] eqn:Hhs; [|apply ret_emits].
  apply for_each_emits. intros eh Heh. apply invoke_emits. simpl. eauto.
Qed.

(** X10. In an engine built through the API, whatever the outcome of a
    dispatch, an event handler is only ever called with a wire event of
    the type it was registered for. *)
Theorem event_handler_gets_events_of_its_type
    E command w eh (cloudEvent : CloudEvent) (state : any) :
  reachable E →
  EventHandlerCall eh cloudEvent state ∈ calls_of (handleCommand E command w) →
  eh_type eh = ev_type cloudEvent.
Proof.
  intros HE Hin.
  pose proof (handleCommand_emits_routed E command w) as Hall.
  rewrite Forall_forall in Hall. apply Hall in Hin as (handlers & Hhs & Heh).
  destruct (reachable_well_keyed E HE) as (_ & _ & Hkeys & _).
  by eapply Hkeys.
Qed.

(** ** Reads of the oracles *)

Lemma fanOut_same_oracles E state cloudEvent :
  preserves same_oracles (fanOut E state cloudEvent).
Proof.
  unfold fanOut. destruct (eventHandler E !! _) as [handlers|];
    [|apply ret_preserves; apply _].
  apply for_each_preserves; [apply _|]. intros eh. apply invoke_same_oracles.
Qed.

(** X11. A dispatch that completes has called [randomUUID] once for each
    new event without an [id] and read the clock once for each new
    event without a [time], and not otherwise: afterwards the generator
    and the clock are advanced by exactly these numbers. *)
Theorem handleCommand_reads_oracles_once_per_absent_field
    E command h w s w' calls :
  commands E !! cmd_type command = Some h →
  handleCommand E command w = (Returned s, w', calls) →
  ∃ s0 w0 c0 a1 newEvents,
    createState E (ch_context h) (cmd_subjects command) w = (Returned s0, w0, c0) ∧
    ch_handle h (cmd_data command) s0 (app w0) = (Returned newEvents, a1) ∧
    (∀ k, entropy w' k = entropy w (draws ev_id newEvents + k)) ∧
    (∀ k, clock w' k = clock w (draws ev_time newEvents + k)).
Proof.
  intros Hh Hrun.
  apply (handleCommand_Returned _ _ _ _ _ _ _ Hh) in Hrun
    as (s0 & w0 & c0 & evs & a1 & w2 & c2 & ces & w3 & c4 &
        Hcs & Hhandle & Hfold & Hmat & Hfan & ->).
  exists s0, w0, c0, a1, evs. split; [done|]. split; [done|].
  pose proof (createState_same_oracles E (ch_context h) (cmd_subjects command) w)
    as [Hen0 Hcl0]. rewrite Hcs in Hen0, Hcl0. simpl in *.
  pose proof (for_fold_preserves same_oracles (executeEvent E (ch_context h)) evs s0
    (executeEvent_same_oracles E (ch_context h)) (set_app a1 w0)) as [Hen2 Hcl2].
  rewrite Hfold in Hen2, Hcl2. simpl in *.
  destruct (map_materialize_run E evs w2) as (ces' & w3' & Hmat' & _ & Hen3 & Hcl3 & _).
  rewrite Hmat in Hmat'. injection Hmat' as <- <-.
  pose proof (for_each_preserves same_oracles (fanOut E s) ces
    (fanOut_same_oracles E s) w3) as [Hen4 Hcl4].
  rewrite Hfan in Hen4, Hcl4. unfold world_of in *. simpl in *.
  split; intros k.
  - by rewrite Hen4, Hen3, Hen2, Hen0.
  - by rewrite Hcl4, Hcl3, Hcl2, Hcl0.
Qed.

(** ** What a replay depends on *)

(** X12. [createState] depends on the state loaders, the upcasters and the
    state rebuilders only: in two engines that agree on these three
    registries it runs alike, whatever their command handlers, event
    handlers and default sources. *)
Theorem createState_depends_on_three_registries
    E1 E2 (context : string) (subjects : list string) w :
  stateLoader E1 = stateLoader E2 →
  upcastHandler E1 = upcastHandler E2 →
  stateRebuilder E1 = stateRebuilder E2 →
  createState E1 context subjects w = createState E2 context subjects w.
Proof.
  intros Hl Hu Hr. unfold createState, maybeUpcast, executeEvent.
  by rewrite Hl, Hu, Hr.
Qed.

(** ** Replaying history and new events together *)

Lemma for_fold_app {A S} (f : A → S → M App S) (xs ys : list A) : ∀ state w,
  for_fold f (xs ++ ys) state w
  = bind (for_fold f xs state) (λ state', for_fold f ys state') w.
Proof.
  induction xs as [|x xs IH]; intros state w; simpl.
  - rewrite bind_run. simpl. by destruct (for_fold f ys state w) as [[o w'] c].
  - rewrite bind_assoc. apply bind_ext. intros; apply IH.
Qed.

(** X13. When the command handler leaves the application's world as it
    is, the state a completed dispatch returns is the state that
    replaying the upcast history followed by the new events, from
    [null], yields. *)
Theorem handleCommand_state_is_replay_of_history_and_new_events
    E command h w events w1 c1 s0 w0 c0 newEvents s w' calls :
  commands E !! cmd_type command = Some h →
  replayed E (ch_context h) (cmd_subjects command) w = (Returned events, w1, c1) →
  createState E (ch_context h) (cmd_subjects command) w = (Returned s0, w0, c0) →
  ch_handle h (cmd_data command) s0 (app w0) = (Returned newEvents, app w0) →
  handleCommand E command w = (Returned s, w', calls) →
  outcome_of (for_fold (executeEvent E (ch_context h)) (events ++ newEvents)
                       JNull w1)
  = Returned s.
Proof.
  intros Hh Hrep Hcs Hhandle Hrun.
  apply (handleCommand_Returned _ _ _ _ _ _ _ Hh) in Hrun
    as (s0' & w0' & c0' & evs & a1 & w2 & c2 & ces & w3 & c4 &
        Hcs' & Hhandle' & Hfold & _).
  rewrite Hcs in Hcs'. injection Hcs' as <- <- <-.
  rewrite Hhandle in Hhandle'. injection Hhandle' as <- <-.
  rewrite set_app_app in Hfold.
  rewrite createState_replayed, bind_run, Hrep in Hcs.
  rewrite for_fold_app, bind_run.
  destruct (for_fold (executeEvent E (ch_context h)) events JNull w1)
    as [[[s1|e] w1'] c1']; unfold outcome_of, world_of, calls_of in *;
    simpl in *; [|done].
  injection Hcs as -> -> _. by rewrite Hfold.
Qed.

(** ** Failures after the command handler has returned *)

(** X21. When a rebuilder throws [e] while the new events are folded,
    [handleCommand] throws the same [e]; no event has been materialized
    (neither the generator nor the clock has been read) and no event
    handler is called. *)
Theorem handleCommand_live_fold_throws
    E command h w s0 w0 c0 newEvents a1 e w2 c2 :
  commands E !! cmd_type command = Some h →
  createState E (ch_context h) (cmd_subjects command) w = (Returned s0, w0, c0) →
  ch_handle h (cmd_data command) s0 (app w0) = (Returned newEvents, a1) →
  for_fold (executeEvent E (ch_context h)) newEvents s0 (set_app a1 w0)
    = (Threw e, w2, c2) →
  handleCommand E command w
  = (Threw e, w2, c0 ++ HandleCall h (cmd_data command) s0 :: c2) ∧
  entropy w2 = entropy w ∧ clock w2 = clock w ∧
  Forall (λ c, ¬ is_eventHandler c)
         (c0 ++ HandleCall h (cmd_data command) s0 :: c2).
Proof.
  intros Hh Hcs Hhandle Hfold.
  pose proof (createState_same_oracles E (ch_context h) (cmd_subjects command) w)
    as [Hen0 Hcl0].
  pose proof (createState_emits E (ch_context h) (cmd_subjects command) w) as Hc0.
  rewrite Hcs in Hen0, Hcl0, Hc0.
  pose proof (for_fold_preserves same_oracles (executeEvent E (ch_context h))
    newEvents s0 (executeEvent_same_oracles E (ch_context h)) (set_app a1 w0))
    as [Hen2 Hcl2].
  pose proof (for_fold_emits (replay_call (ch_context h))
    (executeEvent E (ch_context h)) newEvents s0
    (λ ev st _, emits_impl _ _ _ (rebuild_of_replay_call E _ ev st)
                  (executeEvent_emits E _ ev st)) (set_app a1 w0)) as Hc2.
  rewrite Hfold in Hen2, Hcl2, Hc2. unfold world_of, calls_of in *. simpl in *.
  split; [|split; [congruence|split; [congruence|]]].
  - rewrite (handleCommand_known _ _ _ Hh), bind_run, Hcs, bind_run, invoke_run,
      Hhandle.
    simpl. rewrite bind_run, Hfold. done.
  - apply Forall_app. split; [|constructor; [auto|]];
      (eapply Forall_impl; [eassumption|]); apply replay_call_not_eventHandler.
Qed.

Lemma for_each_app {A} (f : A → M App unit) (xs ys : list A) w :
  for_each f (xs ++ ys) w = bind (for_each f xs) (λ _, for_each f ys) w.
Proof.
  revert w. induction xs as [|x xs IH]; intros w; simpl.
  - rewrite bind_run. simpl. by destruct (for_each f ys w) as [[o w'] c].
  - rewrite bind_assoc. apply bind_ext. intros; apply IH.
Qed.

(** X22. The fan-out stops at the first event handler that throws: when
    the handlers registered before it for the event's type have
    returned and it throws [e], [fanOut] throws [e], and the handlers
    registered after it are not called for this event. *)
Theorem fanOut_stops_at_first_throw
    E (state : any) (cloudEvent : CloudEvent) w before eh after w1 c1 e a' :
  eventHandler E !! ev_type cloudEvent = Some (before ++ eh :: after) →
  for_each (λ eh, invoke (EventHandlerCall eh cloudEvent state)
                         (eh_eventHandler eh cloudEvent state)) before w
    = (Returned tt, w1, c1) →
  eh_eventHandler eh cloudEvent state (app w1) = (Threw e, a') →
  fanOut E state cloudEvent w
  = (Threw e, set_app a' w1,
     map (λ eh, EventHandlerCall eh cloudEvent state) (before ++ [eh])).
Proof.
  intros Hhs Hbefore Hthrow. unfold fanOut. rewrite Hhs, for_each_app, bind_run.
  rewrite Hbefore. apply for_each_invoke_Returned in Hbefore as ->.
  simpl. rewrite bind_run, invoke_run, Hthrow. simpl.
  by rewrite map_app.
Qed.

End Pipelines.

(** * Further properties of the registrations *)

Section Registrations.

Context {App : Type}.
Implicit Types (E : Engine App).

(** X14. A state loader can be registered again for the same context: the
    registration never throws, and the engine is then as if only the
    later loader had been registered. *)
Theorem registerStateLoadingFunction_last_wins E (context : string) load1 load2 :
  registerStateLoadingFunction context load2
    (registerStateLoadingFunction context load1 E).2
  = registerStateLoadingFunction context load2 E ∧
  stateLoader (registerStateLoadingFunction context load2
                 (registerStateLoadingFunction context load1 E).2).2 !! context
  = Some (mkStateLoaderFunction load2 context).
Proof.
  unfold registerStateLoadingFunction. simpl. split.
  - by rewrite insert_insert_eq.
  - by rewrite lookup_insert_eq.
Qed.

(** X15. A state rebuilder and an upcaster are registered once per key:
    after a registration for a free key has succeeded, a second one for
    the same context and type throws the "already exists" error and
    leaves the engine as it was, so the first function stays
    registered. *)
Theorem second_registration_for_a_pair_throws
    E (type context : string) builderHandler builderHandler' func func' :
  stateRebuilder E !! createKey context type = None →
  upcastHandler E !! createKey context type = None →
  let E1 := (registerStateRebuilder type context builderHandler E).2 in
  let E2 := (registerUpcaster type context func E).2 in
  registerStateRebuilder type context builderHandler' E1
  = (Threw (Error ("State rebuilder for " +:+ createKey context type
                   +:+ " already exists")), E1) ∧
  stateRebuilder E1 !! createKey context type
  = Some (mkStateRebuilder type context builderHandler) ∧
  registerUpcaster type context func' E2
  = (Threw (Error ("upcaster for " +:+ createKey context type
                   +:+ " already exists")), E2) ∧
  upcastHandler E2 !! createKey context type
  = Some (mkUpCasthandler type context func).
Proof.
  intros Hr Hu E1 E2. subst E1 E2.
  unfold registerStateRebuilder, registerUpcaster.
  rewrite Hr, Hu. simpl. by rewrite !lookup_insert_eq.
Qed.

(** X16. Two state rebuilders with different, free keys can be registered
    in either order: both registrations succeed and the engine is the
    same. *)
Theorem registerStateRebuilder_order_is_irrelevant
    E (type1 context1 type2 context2 : string) f1 f2 :
  createKey context1 type1 ≠ createKey context2 type2 →
  stateRebuilder E !! createKey context1 type1 = None →
  stateRebuilder E !! createKey context2 type2 = None →
  startup [registerStateRebuilder type1 context1 f1;
           registerStateRebuilder type2 context2 f2] E
  = startup [registerStateRebuilder type2 context2 f2;
             registerStateRebuilder type1 context1 f1] E ∧
  (startup [registerStateRebuilder type1 context1 f1;
            registerStateRebuilder type2 context2 f2] E).1 = Returned tt.
Proof.
  intros Hne H1 H2. simpl. unfold registerStateRebuilder.
  rewrite H1, H2. simpl.
  rewrite !lookup_insert_ne by done. rewrite H1, H2. simpl.
  split; [|done]. do 2 f_equal. by apply insert_insert_ne.
Qed.

End Registrations.

(** * Properties of the earlier version *)

Section LegacyProperties.

Context {App : Type}.
Implicit Types (E : Legacy.Engine App) (w : Legacy.World App).

Lemma legacy_bind_Returned {A B} (m : Legacy.M App A) (k : A → Legacy.M App B)
    w b w' :
  Legacy.bind m k w = (Returned b, w') →
  ∃ a w1, m w = (Returned a, w1) ∧ k a w1 = (Returned b, w').
Proof.
  unfold Legacy.bind. destruct (m w) as [[a|e] w1]; [|done]. eauto.
Qed.

(** X17. In the earlier version an upcaster registered for a type is
    found again: [maybeUpcast] applies it to every event of that type,
    whatever the context of the replay, and the registration changes
    nothing for events of other types. *)
Theorem legacy_registered_upcaster_is_applied E (type : string) func :
  let E' := (Legacy.registerUpcaster type func E).2 in
  (∀ event w,
     Legacy.ev_type event = type →
     Legacy.maybeUpcast E' event w
     = ((func event (Legacy.app w)).1,
        Legacy.set_app (func event (Legacy.app w)).2 w)) ∧
  (∀ event w,
     Legacy.ev_type event ≠ type →
     Legacy.maybeUpcast E' event w = Legacy.maybeUpcast E event w).
Proof.
  simpl. split; intros event w Hty; unfold Legacy.maybeUpcast; simpl.
  - rewrite Hty, lookup_insert_eq. unfold Legacy.invoke. simpl.
    by destruct (func event (Legacy.app w)).
  - by rewrite lookup_insert_ne.
Qed.

(** X18. In the earlier version [registerUpcaster] has no duplicate check:
    a second registration for the same type never throws and replaces
    the first, so that afterwards the engine is as if only the second
    upcaster had been registered. *)
Theorem legacy_registerUpcaster_replaces E (type : string) func1 func2 :
  Legacy.registerUpcaster type func2 (Legacy.registerUpcaster type func1 E).2
  = Legacy.registerUpcaster type func2 E ∧
  Legacy.upcastHandler
    (Legacy.registerUpcaster type func2 (Legacy.registerUpcaster type func1 E).2).2
    !! type
  = Some (Legacy.mkUpCasthandler type func2).
Proof.
  unfold Legacy.registerUpcaster. simpl. split.
  - by rewrite insert_insert_eq.
  - by rewrite lookup_insert_eq.
Qed.

(** X19. In the earlier version [handleCommand] gives no state back: a
    dispatch that completes returns [undefined], whether the command
    has a handler or not and whatever the handler and the rebuilders
    computed. *)
Theorem legacy_handleCommand_returns_undefined E command w v w' :
  Legacy.handleCommand E command w = (Returned v, w') → v = JUndefined.
Proof.
  unfold Legacy.handleCommand.
  destruct (Legacy.commands E !! cmd_type command) as [h|]; [|by intros [= <- _]].
  intros (s0 & w0 & _ & Hrun)%legacy_bind_Returned.
  apply legacy_bind_Returned in Hrun as (evs & w1 & _ & Hrun).
  apply legacy_bind_Returned in Hrun as (s & w2 & _ & Hrun).
  apply legacy_bind_Returned in Hrun as (ces & w3 & _ & Hrun).
  apply legacy_bind_Returned in Hrun as ([] & w4 & _ & Hrun).
  by injection Hrun as <- _.
Qed.

End LegacyProperties.

(** * The further properties on the example applications *)

Lemma library_reachable : reachable library.
Proof. apply reachable_startup; [repeat constructor | constructor]. Qed.

Lemma library_v2_reachable : reachable library_v2.
Proof. apply reachable_startup; [repeat constructor | constructor]. Qed.

Lemma createKey_collides_only_when_both_differ_witness :
  createKey "a|b" "c" = createKey "a" "b|c" ∧
  ("a|b" = "a" ↔ "c" = "b|c").
Proof.
  split; [reflexivity|].
  apply createKey_collides_only_when_both_differ. reflexivity.
Defined.

Lemma startup_keeps_registries_well_keyed_witness :
  Forall api_call
    [registerStateLoadingFunction "inventory" stateLoading;
     registerStateRebuilder "Registered" "inventory" onRegistered;
     registerStateRebuilder "Borrowed" "inventory" onBorrowed;
     registerCommandHandler "borrow" "inventory" borrowBook;
     registerEventhandler "Borrowed" saveEvent] ∧
  well_keyed library.
Proof.
  assert (Forall api_call
    [registerStateLoadingFunction "inventory" stateLoading;
     registerStateRebuilder "Registered" "inventory" onRegistered;
     registerStateRebuilder "Borrowed" "inventory" onBorrowed;
     registerCommandHandler "borrow" "inventory" borrowBook;
     registerEventhandler "Borrowed" saveEvent]) as Hrs by repeat constructor.
  split; [exact Hrs|].
  exact (startup_keeps_registries_well_keyed _ Hrs).
Defined.

Lemma executeEvent_calls_only_the_rebuilder_of_the_pair_witness :
  reachable library ∧
  RebuildCall (mkStateRebuilder "Borrowed" "inventory" onBorrowed) JNull (JNum 2)
    ∈ (executeEvent library "inventory" (minimal "Borrowed" "/b/1" JNull)
         (JNum 2) (shelf 2)).2 ∧
  "inventory" = "inventory" ∧ "Borrowed" = "Borrowed" ∧
  JNull = JNull ∧ JNum 2 = JNum 2.
Proof.
  assert (RebuildCall (mkStateRebuilder "Borrowed" "inventory" onBorrowed)
            JNull (JNum 2)
          ∈ (executeEvent library "inventory" (minimal "Borrowed" "/b/1" JNull)
               (JNum 2) (shelf 2)).2) as Hin by (vm_compute; left).
  split; [exact library_reachable|]. split; [exact Hin|].
  exact (executeEvent_calls_only_the_rebuilder_of_the_pair library "inventory"
           (minimal "Borrowed" "/b/1" JNull) (JNum 2) (shelf 2) _ _ _
           library_reachable Hin).
Defined.

Lemma registered_rebuilder_is_applied_to_its_pair_only_witness :
  stateRebuilder (@initial Store) !! createKey "inventory" "Borrowed" = None ∧
  executeEvent (registerStateRebuilder "Borrowed" "inventory" onBorrowed initial).2
    "inventory" (minimal "Borrowed" "/b/1" JNull) (JNum 2) (shelf 2)
  = (Returned (JNum 1), shelf 2,
     [RebuildCall (mkStateRebuilder "Borrowed" "inventory" onBorrowed)
                  JNull (JNum 2)]).
Proof.
  split; [reflexivity|].
  rewrite (proj1 (registered_rebuilder_is_applied_to_its_pair_only
                    (@initial Store) "Borrowed" "inventory" onBorrowed eq_refl)
             (minimal "Borrowed" "/b/1" JNull) (JNum 2) (shelf 2) eq_refl).
  reflexivity.
Defined.

Lemma createState_without_loader_is_null_witness :
  stateLoader library_blank !! "inventory" = None ∧
  createState library_blank "inventory" ["/b/1"] (shelf 2)
  = (Returned JNull, shelf 2, []).
Proof.
  split; [reflexivity|].
  apply (proj1 (createState_without_loader_is_null library_blank "inventory"
                  eq_refl)).
Defined.

Lemma createState_skips_events_without_rebuilder_witness :
  stateLoader library !! "inventory"
    = Some (mkStateLoaderFunction stateLoading "inventory") ∧
  stateLoading ["/b/1"] (app shelf_returned)
    = (Returned [minimal "Returned" "/b/1" JNull], app shelf_returned) ∧
  createState library "inventory" ["/b/1"] shelf_returned
  = (Returned JNull, set_app (app shelf_returned) shelf_returned,
     [LoadCall (mkStateLoaderFunction stateLoading "inventory") ["/b/1"]]).
Proof.
  split; [reflexivity|]. split; [reflexivity|].
  apply (createState_skips_events_without_rebuilder library "inventory" ["/b/1"]
           shelf_returned _ [minimal "Returned" "/b/1" JNull]);
    [reflexivity | reflexivity | |].
  - intros event ->%list_elem_of_singleton. reflexivity.
  - intros event r ->%list_elem_of_singleton. vm_compute. discriminate.
Defined.

Lemma handleCommand_loader_throws_witness :
  commands library_offline !! cmd_type borrow = Some borrow_handler ∧
  stateLoader library_offline !! "inventory"
    = Some (mkStateLoaderFunction failingLoad "inventory") ∧
  failingLoad ["/b/1"] (app (shelf 2))
    = (Threw (Error "connection lost"), app (shelf 2)) ∧
  handleCommand library_offline borrow (shelf 2)
  = (Threw (Error "connection lost"), set_app (app (shelf 2)) (shelf 2),
     [LoadCall (mkStateLoaderFunction failingLoad "inventory") ["/b/1"]]).
Proof.
  split; [reflexivity|]. split; [reflexivity|]. split; [reflexivity|].
  apply (proj2 (handleCommand_loader_throws library_offline borrow borrow_handler
                  (shelf 2) _ _ _ eq_refl eq_refl eq_refl)).
Defined.

Lemma handleCommand_without_new_events_witness :
  ∃ w0 c0 a1,
    commands library_idle !! cmd_type borrow
      = Some (mkCommandHandler "borrow" "inventory" inspectBook) ∧
    createState library_idle "inventory" ["/b/1"] (shelf 2)
      = (Returned (JNum 2), w0, c0) ∧
    inspectBook JNull (JNum 2) (app w0) = (Returned [], a1) ∧
    handleCommand library_idle borrow (shelf 2)
    = (Returned (JNum 2), set_app a1 w0,
       c0 ++ [HandleCall (mkCommandHandler "borrow" "inventory" inspectBook)
                         JNull (JNum 2)]).
Proof.
  eexists _, _, _.
  split; [reflexivity|]. split; [reflexivity|]. split; [reflexivity|].
  refine (proj1 (handleCommand_without_new_events library_idle borrow
                   (mkCommandHandler "borrow" "inventory" inspectBook)
                   (shelf 2) (JNum 2) _ _ _ _ _ _));
    reflexivity.
Defined.

Lemma event_handler_gets_events_of_its_type_witness :
  ∃ cloudEvent,
    reachable library ∧
    EventHandlerCall (mkEventHandler "Borrowed" saveEvent) cloudEvent (JNum 1)
      ∈ (handleCommand library borrow (shelf 2)).2 ∧
    "Borrowed" = ev_type cloudEvent.
Proof.
  exists (wire library "uuid-0" "2025-01-01T00:00:00Z"
            (minimal "Borrowed" "/b/1" JNull)).
  assert (EventHandlerCall (mkEventHandler "Borrowed" saveEvent)
            (wire library "uuid-0" "2025-01-01T00:00:00Z"
               (minimal "Borrowed" "/b/1" JNull)) (JNum 1)
          ∈ (handleCommand library borrow (shelf 2)).2) as Hin.
  { vm_compute. do 4 right. left. }
  split; [exact library_reachable|]. split; [exact Hin|].
  exact (event_handler_gets_events_of_its_type library borrow (shelf 2) _ _ _
           library_reachable Hin).
Defined.

Lemma handleCommand_reads_oracles_once_per_absent_field_witness :
  ∃ w' calls,
    commands library !! cmd_type borrow = Some borrow_handler ∧
    handleCommand library borrow (shelf 2) = (Returned (JNum 1), w', calls) ∧
    entropy w' 0 = entropy (shelf 2) 1 ∧ clock w' 0 = clock (shelf 2) 1.
Proof.
  destruct (handleCommand library borrow (shelf 2)) as [[o w'] calls] eqn:Hrun.
  assert (o = Returned (JNum 1)) as ->.
  { apply (f_equal (λ r, r.1.1)) in Hrun. vm_compute in Hrun. congruence. }
  exists w', calls. split; [reflexivity|]. split; [reflexivity|].
  destruct (handleCommand_reads_oracles_once_per_absent_field library borrow
              borrow_handler (shelf 2) (JNum 1) w' calls eq_refl Hrun)
    as (s0 & w0 & c0 & a1 & newEvents & Hcs & Hhandle & Hen & Hcl).
  assert (createState library "inventory" ["/b/1"] (shelf 2)
          = (Returned (JNum 2), shelf 2,
             [LoadCall (mkStateLoaderFunction stateLoading "inventory") ["/b/1"];
              RebuildCall (mkStateRebuilder "Registered" "inventory" onRegistered)
                          (JNum 2) JNull])) as Hcs' by reflexivity.
  simpl in Hcs. rewrite Hcs' in Hcs. injection Hcs as <- <- <-.
  injection Hhandle as <- _.
  rewrite (Hen 0), (Hcl 0). split; reflexivity.
Defined.

Lemma createState_depends_on_three_registries_witness :
  stateLoader library = stateLoader library_failing ∧
  upcastHandler library = upcastHandler library_failing ∧
  stateRebuilder library = stateRebuilder library_failing ∧
  createState library "inventory" ["/b/1"] (shelf 2)
  = createState library_failing "inventory" ["/b/1"] (shelf 2).
Proof.
  split; [reflexivity|]. split; [reflexivity|]. split; [reflexivity|].
  apply createState_depends_on_three_registries; reflexivity.
Defined.

Lemma handleCommand_state_is_replay_of_history_and_new_events_witness :
  ∃ events w1 c1 w0 c0 w' calls,
    commands library !! cmd_type borrow = Some borrow_handler ∧
    replayed library "inventory" ["/b/1"] (shelf 2) = (Returned events, w1, c1) ∧
    createState library "inventory" ["/b/1"] (shelf 2) = (Returned (JNum 2), w0, c0) ∧
    borrowBook JNull (JNum 2) (app w0)
      = (Returned [minimal "Borrowed" "/b/1" JNull], app w0) ∧
    handleCommand library borrow (shelf 2) = (Returned (JNum 1), w', calls) ∧
    (for_fold (executeEvent library "inventory")
              (events ++ [minimal "Borrowed" "/b/1" JNull]) JNull w1).1.1
    = Returned (JNum 1).
Proof.
  eexists _, _, _, _, _, _, _.
  split; [reflexivity|]. split; [reflexivity|]. split; [reflexivity|].
  split; [reflexivity|]. split; [reflexivity|].
  refine (handleCommand_state_is_replay_of_history_and_new_events library borrow
            borrow_handler (shelf 2) [minimal "Registered" "/b/1" (JNum 2)] _ _
            (JNum 2) _ _ [minimal "Borrowed" "/b/1" JNull] (JNum 1) _ _
            _ _ _ _ _);
    reflexivity.
Defined.

Lemma second_registration_for_a_pair_throws_witness :
  stateRebuilder (@initial Store) !! createKey "inventory" "Borrowed" = None ∧
  upcastHandler (@initial Store) !! createKey "inventory" "Borrowed" = None ∧
  (registerStateRebuilder "Borrowed" "inventory" onRegistered
     (registerStateRebuilder "Borrowed" "inventory" onBorrowed initial).2).1
  = Threw (Error "State rebuilder for [inventory|Borrowed] already exists") ∧
  (registerUpcaster "Borrowed" "inventory" upcastRegistered
     (registerUpcaster "Borrowed" "inventory" upcastRegistered initial).2).1
  = Threw (Error "upcaster for [inventory|Borrowed] already exists").
Proof.
  split; [reflexivity|]. split; [reflexivity|].
  destruct (second_registration_for_a_pair_throws (@initial Store)
              "Borrowed" "inventory" onBorrowed onRegistered
              upcastRegistered upcastRegistered eq_refl eq_refl)
    as (Hr & _ & Hu & _).
  split; [by rewrite Hr | by rewrite Hu].
Defined.

Lemma registerStateRebuilder_order_is_irrelevant_witness :
  createKey "inventory" "Registered" ≠ createKey "inventory" "Borrowed" ∧
  stateRebuilder (@initial Store) !! createKey "inventory" "Registered" = None ∧
  stateRebuilder (@initial Store) !! createKey "inventory" "Borrowed" = None ∧
  startup [registerStateRebuilder "Registered" "inventory" onRegistered;
           registerStateRebuilder "Borrowed" "inventory" onBorrowed] initial
  = startup [registerStateRebuilder "Borrowed" "inventory" onBorrowed;
             registerStateRebuilder "Registered" "inventory" onRegistered] initial.
Proof.
  assert (createKey "inventory" "Registered" ≠ createKey "inventory" "Borrowed")
    as Hne by done.
  split; [exact Hne|]. split; [reflexivity|]. split; [reflexivity|].
  apply (proj1 (registerStateRebuilder_order_is_irrelevant (@initial Store)
                  "Registered" "inventory" "Borrowed" "inventory"
                  onRegistered onBorrowed Hne eq_refl eq_refl)).
Defined.

Lemma handleCommand_live_fold_throws_witness :
  ∃ w0 c0 a1 w2 c2,
    commands library_corrupt !! cmd_type borrow = Some borrow_handler ∧
    createState library_corrupt "inventory" ["/b/1"] (shelf 2)
      = (Returned (JNum 2), w0, c0) ∧
    borrowBook JNull (JNum 2) (app w0)
      = (Returned [minimal "Borrowed" "/b/1" JNull], a1) ∧
    for_fold (executeEvent library_corrupt "inventory")
             [minimal "Borrowed" "/b/1" JNull] (JNum 2) (set_app a1 w0)
      = (Threw (Error "corrupt state"), w2, c2) ∧
    handleCommand library_corrupt borrow (shelf 2)
    = (Threw (Error "corrupt state"), w2,
       c0 ++ HandleCall borrow_handler JNull (JNum 2) :: c2).
Proof.
  eexists _, _, _, _, _.
  split; [reflexivity|]. split; [reflexivity|]. split; [reflexivity|].
  split; [reflexivity|].
  refine (proj1 (handleCommand_live_fold_throws library_corrupt borrow
                   borrow_handler (shelf 2) (JNum 2) _ _
                   [minimal "Borrowed" "/b/1" JNull] _ _ _ _ _ _ _ _));
    reflexivity.
Defined.

Lemma fanOut_stops_at_first_throw_witness :
  eventHandler library_failing !! "Borrowed"
    = Some ([] ++ mkEventHandler "Borrowed" failingHandler
               :: [mkEventHandler "Borrowed" saveEvent]) ∧
  failingHandler (minimal "Borrowed" "/b/1" JNull) (JNum 1) (app (shelf 2))
    = (Threw (Error "disk full"), app (shelf 2)) ∧
  fanOut library_failing (JNum 1) (minimal "Borrowed" "/b/1" JNull) (shelf 2)
  = (Threw (Error "disk full"), set_app (app (shelf 2)) (shelf 2),
     [EventHandlerCall (mkEventHandler "Borrowed" failingHandler)
                       (minimal "Borrowed" "/b/1" JNull) (JNum 1)]).
Proof.
  split; [reflexivity|]. split; [reflexivity|].
  apply (fanOut_stops_at_first_throw library_failing (JNum 1)
           (minimal "Borrowed" "/b/1" JNull) (shelf 2) []
           (mkEventHandler "Borrowed" failingHandler)
           [mkEventHandler "Borrowed" saveEvent] (shelf 2) []);
    reflexivity.
Defined.

Lemma upcaster_never_sees_its_own_type_witness :
  reachable library_v2 ∧
  UpcastCall (mkUpCasthandler "Registered" "inventory" upcastRegistered)
             (minimal "[inventory|Registered]" "/b/1" (JNum 2))
    ∈ (createState library_v2 "inventory" ["/b/1"] shelf_keyed).2 ∧
  "[inventory|Registered]" = createKey "inventory" "Registered" ∧
  "[inventory|Registered]" ≠ "Registered".
Proof.
  assert (UpcastCall (mkUpCasthandler "Registered" "inventory" upcastRegistered)
            (minimal "[inventory|Registered]" "/b/1" (JNum 2))
          ∈ (createState library_v2 "inventory" ["/b/1"] shelf_keyed).2) as Hin.
  { vm_compute. right. left. }
  split; [exact library_v2_reachable|]. split; [exact Hin|].
  exact (upcaster_never_sees_its_own_type library_v2 "inventory" ["/b/1"] shelf_keyed
           _ _ library_v2_reachable Hin).
Defined.

Lemma legacy_handleCommand_returns_undefined_witness :
  ∃ w',
    Legacy.handleCommand legacy_library borrow legacy_world
      = (Returned JUndefined, w') ∧
    JUndefined = JUndefined.
Proof.
  eexists. split; [reflexivity|].
  eapply (legacy_handleCommand_returns_undefined legacy_library borrow legacy_world).
  reflexivity.
Defined.
